(** * SaveKnight Desktop: the front-end engine of [src/App.tsx]

    A shallow embedding of the state, the handlers and the helper
    functions of the [App] component, with the Tauri backend taken as an
    abstract interface, and the properties of the detection-and-sync
    engine proved over it.

    Conventions of the embedding.
    - A JavaScript [string] is a [string]; the functions of the engine
      that the component calls on Unicode text, [toLowerCase] and
      [trim], are taken as given ([JSString]), so that what is proved
      holds for the engine's own functions.  Their ASCII versions
      ([ascii_strings]) serve to run the handlers on ASCII text.
    - A JavaScript [number] holding a byte count or a counter is an
      integer ([Z]) or a natural number; [formatBytes] is modelled on the
      integer-valued inputs, with [Math.log(bytes) / Math.log(k)] taken
      in exact arithmetic, which is what the doubles give below
      [1024^4] (see [log_index]).
    - A [Set<string>] is a [gset string]; arrays are lists.
    - A React state cell is a field of [AppState].  A handler reads the
      cells through the values captured when the component was rendered
      (the snapshot) and writes them through the setters, which act on
      the live state.
    - [invoke] goes to a [Backend] over an abstract world; every call is
      recorded in a trace together with its result.
    - The handlers come twice.  As state transformers ([handleLogin],
      [handleUpload], ..., [dispatch]) they run from their first to
      their last statement, as they do when every answer they ask for
      arrives before anything else happens.  Cut at their [await]s
      ([begin], [serve], [resume], [step]) they let the actions of the
      user, the answers of the backend and the timers come in any
      order; the first reading is one schedule of the second
      ([dispatch_schedule], [onMount_schedule]). *)

From Stdlib Require Import ZArith Lia Ascii.
From stdpp Require Import base strings gmap list pretty.

#[local] Set Warnings "-clear-no-such-hyp".

Local Open Scope string_scope.
Local Open Scope Z_scope.
Local Open Scope list_scope.

(** ** Data model (the interfaces at the head of [App.tsx]) *)

Module DetectedSavePath.
Record t : Type := Build {
  pattern : string;
  resolved_path : string;
  exists_ : bool;
  file_count : Z;
  total_size_bytes : Z
}.
End DetectedSavePath.

Module DetectedGame.
Record t : Type := Build {
  name : string;
  paths : list DetectedSavePath.t;
  total_size_bytes : Z;
  last_modified : option string
}.
End DetectedGame.

Module AuthStatus.
Record t : Type := Build {
  is_authenticated : bool;
  device_id : option string;
  user_email : option string;
  plan_name : option string
}.
End AuthStatus.

Module GameProfile.
Record t : Type := Build {
  id : string;
  name : string;
  platform : string
}.
End GameProfile.

(** ** Strings *)

(** [toLowerCase] on ASCII text: the letters A to Z are folded, every
    other character is left as it is. *)

Definition is_upper (c : ascii) : bool :=
  let n := N_of_ascii c in ((65 <=? n) && (n <=? 90))%N.

Definition lower_ascii (c : ascii) : ascii :=
  if is_upper c then ascii_of_N (N_of_ascii c + 32) else c.

Fixpoint ascii_toLowerCase (s : string) : string :=
  match s with
  | EmptyString => EmptyString
  | String c r => String (lower_ascii c) (ascii_toLowerCase r)
  end.

(** ** [formatBytes] *)

Definition k : Z := 1024.

Definition sizes : list string := ["B"; "KB"; "MB"; "GB"].

(** [Math.floor(Math.log(bytes) / Math.log(k))] for an integer
    [bytes >= 1], in exact arithmetic: the exponent of the largest power
    of [k = 2^10] that is at most [bytes] (see [log_index_spec]).  The
    engine computes the quotient of the two logarithms in double
    precision.  Below [1024^4], and at every whole number of units, that
    quotient has the floor given here; just under a power of [k] from
    [1024^5] on it can round up to the next integer (at [2^50 - 1] the
    engine's index is 5 and the exact one is 4), so the properties of the
    number printed are stated below [1024^4]. *)
Definition log_index (bytes : Z) : Z := Z.log2 bytes / 10.

(** [sizes[i]]: an index outside the array reads [undefined], which the
    string concatenation renders as the text "undefined". *)
Definition unit_at (i : Z) : option string :=
  if (i <? 0) then None else sizes !! Z.to_nat i.

Definition show_unit (u : option string) : string :=
  match u with Some s => s | None => "undefined" end.

(** [parseFloat(x.toFixed(2))] rendered by the concatenation, for
    [x = bytes / d]: [toFixed(2)] rounds [100 * x] to the nearest integer
    (the larger one on a tie), and the conversion back to a string drops
    the trailing zeros of the fraction. *)
Definition hundredths (bytes d : Z) : Z := (200 * bytes + d) / (2 * d).

Definition show_hundredths (n : Z) : string :=
  let ip := n / 100 in
  let fp := n mod 100 in
  if fp =? 0 then pretty ip
  else if fp mod 10 =? 0 then pretty ip +:+ "." +:+ pretty (fp / 10)
  else pretty ip +:+ "." +:+ pretty (fp / 10) +:+ pretty (fp mod 10).

Definition formatBytes (bytes : Z) : string :=
  if bytes =? 0 then "0 B"
  else if bytes <? 0 then "NaN undefined"
  else
    let i := log_index bytes in
    show_hundredths (hundredths bytes (k ^ i)) +:+ " " +:+ show_unit (unit_at i).

Example formatBytes_1536 : formatBytes 1536 = "1.5 KB".
Proof. vm_compute. reflexivity. Qed.

Example formatBytes_4096 : formatBytes 4096 = "4 KB".
Proof. vm_compute. reflexivity. Qed.

Example formatBytes_1023 : formatBytes 1023 = "1023 B".
Proof. vm_compute. reflexivity. Qed.

Example formatBytes_big : formatBytes (1024 ^ 4) = "1 undefined".
Proof. vm_compute. reflexivity. Qed.

Example formatBytes_frac : formatBytes 1234567 = "1.18 MB".
Proof. vm_compute. reflexivity. Qed.

(** [trim] on ASCII text: the white space of ASCII (codes 9 to 13 and
    32) is stripped from both ends. *)
Definition is_space (c : ascii) : bool :=
  let n := N_of_ascii c in (((9 <=? n) && (n <=? 13)) || (n =? 32))%N.

Fixpoint trim_start (s : string) : string :=
  match s with
  | EmptyString => EmptyString
  | String c r => if is_space c then trim_start r else s
  end.

Definition ascii_trim (s : string) : string :=
  String.rev (trim_start (String.rev (trim_start s))).

(** [String.prototype.toLowerCase] and [String.prototype.trim], the
    functions of the engine: they fold every cased letter of Unicode and
    strip every white space of Unicode, and are not defined here. *)
Class JSString : Type := {
  toLowerCase : string -> string;
  trim : string -> string
}.

(** The two functions on ASCII text, where they agree with the
    engine's. *)
Definition ascii_strings : JSString :=
  {| toLowerCase := ascii_toLowerCase; trim := ascii_trim |}.

(** [String.prototype.includes] *)
Fixpoint includes (needle s : string) : bool :=
  String.prefix needle s
  || match s with
     | EmptyString => false
     | String _ r => includes needle r
     end.

(** ** The component state *)

(** The values of [activeTab]: ['games' | 'settings']. *)
Inductive Tab : Type := tab_games | tab_settings.

Record AppState : Type := mkApp {
  authStatus : option AuthStatus.t;
  detectedGames : list DetectedGame.t;
  selectedGames : gset string;
  gameProfiles : list GameProfile.t;
  isScanning : bool;
  isUploading : bool;
  activeTab : Tab;
  error : option string;
  successMessage : option string;
  sessionCookie : string;
  deviceName : string;
  isLoggingIn : bool;
  showLoginForm : bool
}.

(** The values of the [useState] calls at the first render. *)
Definition initial : AppState :=
  mkApp None [] ∅ [] false false tab_games None None "" "" false false.

Definition with_authStatus (v : option AuthStatus.t) (s : AppState) : AppState :=
  mkApp v (detectedGames s) (selectedGames s) (gameProfiles s) (isScanning s)
    (isUploading s) (activeTab s) (error s) (successMessage s)
    (sessionCookie s) (deviceName s) (isLoggingIn s) (showLoginForm s).

Definition with_detectedGames (v : list DetectedGame.t) (s : AppState) : AppState :=
  mkApp (authStatus s) v (selectedGames s) (gameProfiles s) (isScanning s)
    (isUploading s) (activeTab s) (error s) (successMessage s)
    (sessionCookie s) (deviceName s) (isLoggingIn s) (showLoginForm s).

Definition with_selectedGames (v : gset string) (s : AppState) : AppState :=
  mkApp (authStatus s) (detectedGames s) v (gameProfiles s) (isScanning s)
    (isUploading s) (activeTab s) (error s) (successMessage s)
    (sessionCookie s) (deviceName s) (isLoggingIn s) (showLoginForm s).

Definition with_gameProfiles (v : list GameProfile.t) (s : AppState) : AppState :=
  mkApp (authStatus s) (detectedGames s) (selectedGames s) v (isScanning s)
    (isUploading s) (activeTab s) (error s) (successMessage s)
    (sessionCookie s) (deviceName s) (isLoggingIn s) (showLoginForm s).

Definition with_isScanning (v : bool) (s : AppState) : AppState :=
  mkApp (authStatus s) (detectedGames s) (selectedGames s) (gameProfiles s) v
    (isUploading s) (activeTab s) (error s) (successMessage s)
    (sessionCookie s) (deviceName s) (isLoggingIn s) (showLoginForm s).

Definition with_isUploading (v : bool) (s : AppState) : AppState :=
  mkApp (authStatus s) (detectedGames s) (selectedGames s) (gameProfiles s)
    (isScanning s) v (activeTab s) (error s) (successMessage s)
    (sessionCookie s) (deviceName s) (isLoggingIn s) (showLoginForm s).

Definition with_activeTab (v : Tab) (s : AppState) : AppState :=
  mkApp (authStatus s) (detectedGames s) (selectedGames s) (gameProfiles s)
    (isScanning s) (isUploading s) v (error s) (successMessage s)
    (sessionCookie s) (deviceName s) (isLoggingIn s) (showLoginForm s).

Definition with_error (v : option string) (s : AppState) : AppState :=
  mkApp (authStatus s) (detectedGames s) (selectedGames s) (gameProfiles s)
    (isScanning s) (isUploading s) (activeTab s) v (successMessage s)
    (sessionCookie s) (deviceName s) (isLoggingIn s) (showLoginForm s).

Definition with_successMessage (v : option string) (s : AppState) : AppState :=
  mkApp (authStatus s) (detectedGames s) (selectedGames s) (gameProfiles s)
    (isScanning s) (isUploading s) (activeTab s) (error s) v
    (sessionCookie s) (deviceName s) (isLoggingIn s) (showLoginForm s).

Definition with_sessionCookie (v : string) (s : AppState) : AppState :=
  mkApp (authStatus s) (detectedGames s) (selectedGames s) (gameProfiles s)
    (isScanning s) (isUploading s) (activeTab s) (error s) (successMessage s)
    v (deviceName s) (isLoggingIn s) (showLoginForm s).

Definition with_deviceName (v : string) (s : AppState) : AppState :=
  mkApp (authStatus s) (detectedGames s) (selectedGames s) (gameProfiles s)
    (isScanning s) (isUploading s) (activeTab s) (error s) (successMessage s)
    (sessionCookie s) v (isLoggingIn s) (showLoginForm s).

Definition with_isLoggingIn (v : bool) (s : AppState) : AppState :=
  mkApp (authStatus s) (detectedGames s) (selectedGames s) (gameProfiles s)
    (isScanning s) (isUploading s) (activeTab s) (error s) (successMessage s)
    (sessionCookie s) (deviceName s) v (showLoginForm s).

Definition with_showLoginForm (v : bool) (s : AppState) : AppState :=
  mkApp (authStatus s) (detectedGames s) (selectedGames s) (gameProfiles s)
    (isScanning s) (isUploading s) (activeTab s) (error s) (successMessage s)
    (sessionCookie s) (deviceName s) (isLoggingIn s) v.

(** [authStatus?.is_authenticated], the test the render branches on. *)
Definition authenticated (s : AppState) : bool :=
  match authStatus s with
  | Some a => AuthStatus.is_authenticated a
  | None => false
  end.

(** ** The backend behind [invoke] *)

(** What an awaited [invoke] gives: the resolved value, or the rejection
    that the [catch] clause receives (rendered by [String(e)]). *)
Inductive Result (A : Type) : Type :=
| Ok (a : A)
| Err (e : string).
Arguments Ok {A} a.
Arguments Err {A} e.

(** The Tauri commands the component invokes, over a world [W] that the
    component does not see. *)
Class Backend (W : Type) : Type := {
  get_auth_status : W -> Result AuthStatus.t * W;
  get_game_profiles : W -> Result (list GameProfile.t) * W;
  login : string -> string -> W -> Result AuthStatus.t * W;
  logout : W -> Result unit * W;
  scan_games : W -> Result (list DetectedGame.t) * W;
  create_game_profile : string -> string -> W -> Result GameProfile.t * W;
  upload_saves : list DetectedGame.t -> string -> W -> Result unit * W
}.

(** One entry of the trace: a command, its arguments and its result. *)
Inductive Call : Type :=
| CGetAuthStatus (r : Result AuthStatus.t)
| CGetGameProfiles (r : Result (list GameProfile.t))
| CLogin (cookie device : string) (r : Result AuthStatus.t)
| CLogout (r : Result unit)
| CScanGames (r : Result (list DetectedGame.t))
| CCreateGameProfile (name platform : string) (r : Result GameProfile.t)
| CUploadSaves (gs : list DetectedGame.t) (gameProfileId : string) (r : Result unit).

(** ** Handlers as state transformers *)

Section Handlers.
Context {W : Type} `{B : Backend W} {JS : JSString}.

(** What a running handler acts on: the live React state, the backend
    world, the trace of [invoke] calls and the lines written with
    [console.error]. *)
Record Sys : Type := mkSys {
  live : AppState;
  world : W;
  calls : list Call;
  console : list string
}.

Definition M (A : Type) : Type := Sys -> A * Sys.

Definition ret {A} (a : A) : M A := fun σ => (a, σ).

Definition bind {A C} (m : M A) (f : A -> M C) : M C :=
  fun σ => let '(a, σ') := m σ in f a σ'.

Notation "x <- m ;; f" := (bind m (fun x => f))
  (at level 100, m at next level, f at level 200, right associativity,
   only parsing).
Notation "m ;; f" := (bind m (fun _ => f))
  (at level 100, f at level 200, right associativity, only parsing).

(** A setter called with a function of the previous value; a setter
    called with a value is the constant function. *)
Definition update (f : AppState -> AppState) : M unit :=
  fun σ => (tt, mkSys (f (live σ)) (world σ) (calls σ) (console σ)).

Definition console_error (msg : string) : M unit :=
  fun σ => (tt, mkSys (live σ) (world σ) (calls σ) (console σ ++ [msg])).

(** [await invoke(cmd, args)]: run the command on the world and record
    the call. *)
Definition invoke {A} (cmd : W -> Result A * W) (log : Result A -> Call)
  : M (Result A) :=
  fun σ => let '(r, w') := cmd (world σ) in
           (r, mkSys (live σ) w' (calls σ ++ [log r]) (console σ)).

Definition when (b : bool) (m : M unit) : M unit :=
  if b then m else ret tt.

Definition loadGameProfiles : M unit :=
  r <- invoke get_game_profiles CGetGameProfiles ;;
  match r with
  | Ok profiles => update (with_gameProfiles profiles)
  | Err e => console_error ("Failed to load game profiles: " +:+ e)
  end.

(** [loadGameProfiles()] is called without [await], here and in
    [handleLogin]: the rest of the caller does not wait for the listing.
    As a transformer the call is taken with its answer arriving at once;
    the setters of the caller that follow write other cells, so the
    state at the end is the same as with the answer arriving right after
    the caller is through.  [resume] has the listing left pending. *)
Definition checkAuth : M unit :=
  r <- invoke get_auth_status CGetAuthStatus ;;
  match r with
  | Ok status =>
      update (with_authStatus (Some status)) ;;
      when (AuthStatus.is_authenticated status) loadGameProfiles
  | Err e => update (with_error (Some e))
  end.

(** The effect of the first render: [checkAuth()], the subscription to
    [trigger-scan] (the action [ATriggerScan] below) and the default
    device name. *)
Definition onMount (userAgent : string) : M unit :=
  checkAuth ;;
  update (with_deviceName
            (if includes "Windows" userAgent then "Windows PC" else "Desktop")).

(** The timers ([setTimeout], which clear the success message after a
    few seconds) are left out of the transformers; [resume] has them. *)
Definition handleLogin (snap : AppState) : M unit :=
  if String.eqb (trim (sessionCookie snap)) "" then
    update (with_error (Some "Please enter your session cookie"))
  else if String.eqb (trim (deviceName snap)) "" then
    update (with_error (Some "Please enter a device name"))
  else
    update (with_isLoggingIn true) ;;
    update (with_error None) ;;
    r <- invoke (login (trim (sessionCookie snap)) (trim (deviceName snap)))
           (CLogin (trim (sessionCookie snap)) (trim (deviceName snap))) ;;
    match r with
    | Ok status =>
        update (with_authStatus (Some status)) ;;
        update (with_sessionCookie "") ;;
        update (with_showLoginForm false) ;;
        when (AuthStatus.is_authenticated status)
          (loadGameProfiles ;;
           update (with_successMessage
                     (Some "Successfully connected to SaveKnight!")))
    | Err e => update (with_error (Some e))
    end ;;
    update (with_isLoggingIn false).

Definition handleLogout : M unit :=
  r <- invoke logout CLogout ;;
  match r with
  | Ok _ =>
      update (with_authStatus
                (Some (AuthStatus.Build false None None None))) ;;
      update (with_detectedGames []) ;;
      update (with_selectedGames ∅) ;;
      update (with_gameProfiles [])
  | Err e => update (with_error (Some e))
  end.

Definition handleScan : M unit :=
  update (with_isScanning true) ;;
  update (with_error None) ;;
  r <- invoke scan_games CScanGames ;;
  match r with
  | Ok gs =>
      update (with_detectedGames gs) ;;
      when (0 <? length gs)%nat
        (update (with_successMessage
           (Some ("Found " +:+ pretty (length gs)
                  +:+ " games with save files!"))))
  | Err e => update (with_error (Some e))
  end ;;
  update (with_isScanning false).

(** The predicate of [gameProfiles.find] in [handleUpload]. *)
Definition same_name (game : DetectedGame.t) (p : GameProfile.t) : bool :=
  String.eqb (toLowerCase (GameProfile.name p))
             (toLowerCase (DetectedGame.name game)).

(** The second [try] of the loop body: the upload under [profile.id].
    [profile] is an object there, so the test [if (profile)] holds. *)
Definition uploadGame (game : DetectedGame.t) (profile : GameProfile.t)
    (cnt : nat * nat) : M (nat * nat) :=
  r <- invoke (upload_saves [game] (GameProfile.id profile))
         (CUploadSaves [game] (GameProfile.id profile)) ;;
  match r with
  | Ok _ => ret (S (fst cnt), snd cnt)
  | Err e =>
      console_error ("Failed to upload " +:+ DetectedGame.name game
                     +:+ ": " +:+ e) ;;
      ret (fst cnt, S (snd cnt))
  end.

(** One iteration of [for (const game of gamesToUpload)].  The lookup
    reads [gameProfiles] of the snapshot [snap], the array the handler
    captured; the append goes through the updater form of
    [setGameProfiles] and so acts on the live state.  [cnt] is
    [(successCount, failCount)]. *)
Definition processGame (snap : AppState)
    (game : DetectedGame.t) (cnt : nat * nat) : M (nat * nat) :=
  match List.find (same_name game) (gameProfiles snap) with
  | Some profile => uploadGame game profile cnt
  | None =>
      r <- invoke (create_game_profile (DetectedGame.name game) "PC")
             (CCreateGameProfile (DetectedGame.name game) "PC") ;;
      match r with
      | Ok newProfile =>
          update (fun s => with_gameProfiles
                             (gameProfiles s ++ [newProfile]) s) ;;
          uploadGame game newProfile cnt
      | Err e =>
          console_error ("Failed to create profile for "
                         +:+ DetectedGame.name game +:+ ": " +:+ e) ;;
          ret (fst cnt, S (snd cnt))
      end
  end.

Fixpoint uploadLoop (snap : AppState) (gamesToUpload : list DetectedGame.t)
    (cnt : nat * nat) : M (nat * nat) :=
  match gamesToUpload with
  | [] => ret cnt
  | game :: rest =>
      cnt' <- processGame snap game cnt ;;
      uploadLoop snap rest cnt'
  end.

(** [detectedGames.filter((g) => selectedGames.has(g.name))] *)
Definition gamesToUpload (snap : AppState) : list DetectedGame.t :=
  List.filter (fun g => bool_decide (DetectedGame.name g ∈ selectedGames snap))
              (detectedGames snap).

Definition backed_up_message (successCount : nat) : string :=
  "Successfully backed up " +:+ pretty successCount +:+ " game(s)!".

Definition failed_message (failCount : nat) : string :=
  "Failed to backup " +:+ pretty failCount
  +:+ " game(s). Check logs for details.".

(** No statement of the outer [try] can throw (every [invoke] of the
    loop sits in a [try] of its own), so its [catch] clause is never
    entered and [finally] runs last. *)
Definition handleUpload (snap : AppState) : M unit :=
  if (size (selectedGames snap) =? 0)%nat then
    update (with_error (Some "Please select at least one game to backup"))
  else
    update (with_isUploading true) ;;
    update (with_error None) ;;
    cnt <- uploadLoop snap (gamesToUpload snap) (0, 0)%nat ;;
    update (with_selectedGames ∅) ;;
    when (0 <? fst cnt)%nat
      (update (with_successMessage (Some (backed_up_message (fst cnt))))) ;;
    when (0 <? snd cnt)%nat
      (update (with_error (Some (failed_message (snd cnt))))) ;;
    update (with_isUploading false).

(** The updater that [toggleGameSelection] passes to
    [setSelectedGames]. *)
Definition toggled (gameName : string) (prev : gset string) : gset string :=
  let next := prev in
  if bool_decide (gameName ∈ next) then next ∖ {[gameName]}
  else next ∪ {[gameName]}.

Definition toggleGameSelection (gameName : string) : M unit :=
  update (fun s => with_selectedGames (toggled gameName (selectedGames s)) s).

Definition selectAll (snap : AppState) : M unit :=
  update (with_selectedGames
            (list_to_set (map DetectedGame.name (detectedGames snap)))).

Definition deselectAll : M unit :=
  update (with_selectedGames ∅).

(** ** The user interface as a transition system *)

(** What can happen to a mounted component: the [onClick] and
    [onChange] bindings of the two screens, and the [trigger-scan]
    event. *)
Inductive Action : Type :=
| AShowLoginForm
| ASetDeviceName (v : string)
| ASetSessionCookie (v : string)
| ACancelLogin
| ALogin
| ASetTab (t : Tab)
| ADismissError
| AScan
| ATriggerScan
| AUpload
| ASelectAll
| ADeselectAll
| AToggle (gameName : string)
| ALogout.

(** Which bindings the render of state [s] offers: the login screen
    when [!authStatus?.is_authenticated], the main screen otherwise,
    with its [disabled] attributes and conditional blocks. *)
Definition enabled (s : AppState) (a : Action) : bool :=
  match a with
  | ATriggerScan => true
  | AShowLoginForm => negb (authenticated s) && negb (showLoginForm s)
  | ASetDeviceName _ | ASetSessionCookie _ | ACancelLogin =>
      negb (authenticated s) && showLoginForm s
  | ALogin =>
      negb (authenticated s) && showLoginForm s && negb (isLoggingIn s)
  | ASetTab _ => authenticated s
  | ADismissError =>
      authenticated s
      && match error s with Some e => negb (String.eqb e "") | None => false end
  | AScan =>
      authenticated s && match activeTab s with tab_games => true | _ => false end
      && negb (isScanning s)
  | AUpload =>
      authenticated s && match activeTab s with tab_games => true | _ => false end
      && negb (isUploading s || (size (selectedGames s) =? 0)%nat)
  | ASelectAll | ADeselectAll =>
      authenticated s && match activeTab s with tab_games => true | _ => false end
      && negb (length (detectedGames s) =? 0)%nat
  | AToggle g =>
      authenticated s && match activeTab s with tab_games => true | _ => false end
      && bool_decide (g ∈ map DetectedGame.name (detectedGames s))
  | ALogout =>
      authenticated s && match activeTab s with tab_settings => true | _ => false end
  end.

(** The handler bound to an action, closed over the render [snap]. *)
Definition handler (snap : AppState) (a : Action) : M unit :=
  match a with
  | AShowLoginForm => update (with_showLoginForm true)
  | ASetDeviceName v => update (with_deviceName v)
  | ASetSessionCookie v => update (with_sessionCookie v)
  | ACancelLogin =>
      update (with_showLoginForm false) ;; update (with_error None)
  | ALogin => handleLogin snap
  | ASetTab t => update (with_activeTab t)
  | ADismissError => update (with_error None)
  | AScan | ATriggerScan => handleScan
  | AUpload => handleUpload snap
  | ASelectAll => selectAll snap
  | ADeselectAll => deselectAll
  | AToggle g => toggleGameSelection g
  | ALogout => handleLogout
  end.

(** An action taken on the current render and followed to its end: the
    handler sees the live state of that moment as its snapshot, and
    every answer it asks for, the listing that [loadGameProfiles()]
    requests without [await] included, arrives before anything else
    happens.  This is one of the schedules of [step] below
    ([dispatch_schedule]), where other events come in between.  The
    timers that clear the success message are left out here. *)
Definition dispatch (a : Action) (σ : Sys) : Sys :=
  snd (handler (live σ) a σ).

Definition run {A} (m : M A) (σ : Sys) : Sys := snd (m σ).

(** ** The handlers between their [await]s

    An [async] handler runs without interruption up to its next
    [await]; the rest of it runs when the awaited answer arrives, and
    anything may happen in between.  A task is what is pending then: a
    request to the backend together with what the rest of the handler
    holds (the render it closed over, the rest of the batch, the two
    counters), and the answer once the backend has given one; or a timer
    set with [setTimeout]. *)
Inductive Task : Type :=
| TAuthStatus (r : option (Result AuthStatus.t))
| TGameProfiles (r : option (Result (list GameProfile.t)))
| TLogin (cookie device : string) (r : option (Result AuthStatus.t))
| TLogout (r : option (Result unit))
| TScan (r : option (Result (list DetectedGame.t)))
| TCreate (snap : AppState) (game : DetectedGame.t)
    (rest : list DetectedGame.t) (cnt : nat * nat)
    (r : option (Result GameProfile.t))
| TUpload (snap : AppState) (game : DetectedGame.t) (profile : GameProfile.t)
    (rest : list DetectedGame.t) (cnt : nat * nat) (r : option (Result unit))
| TClearMessage.

(** The backend runs the command of a task that has no answer yet; the
    call enters the trace with its result. *)
Definition serve (t : Task) : option (M Task) :=
  match t with
  | TAuthStatus None =>
      Some (r <- invoke get_auth_status CGetAuthStatus ;;
            ret (TAuthStatus (Some r)))
  | TGameProfiles None =>
      Some (r <- invoke get_game_profiles CGetGameProfiles ;;
            ret (TGameProfiles (Some r)))
  | TLogin cookie device None =>
      Some (r <- invoke (login cookie device) (CLogin cookie device) ;;
            ret (TLogin cookie device (Some r)))
  | TLogout None =>
      Some (r <- invoke logout CLogout ;; ret (TLogout (Some r)))
  | TScan None =>
      Some (r <- invoke scan_games CScanGames ;; ret (TScan (Some r)))
  | TCreate snap game rest cnt None =>
      Some (r <- invoke (create_game_profile (DetectedGame.name game) "PC")
                   (CCreateGameProfile (DetectedGame.name game) "PC") ;;
            ret (TCreate snap game rest cnt (Some r)))
  | TUpload snap game profile rest cnt None =>
      Some (r <- invoke (upload_saves [game] (GameProfile.id profile))
                   (CUploadSaves [game] (GameProfile.id profile)) ;;
            ret (TUpload snap game profile rest cnt (Some r)))
  | _ => None
  end.

(** [handleUpload] after the loop: from [setSelectedGames(new Set())]
    to the [finally] clause. *)
Definition finishUpload (cnt : nat * nat) : M (list Task) :=
  update (with_selectedGames ∅) ;;
  timers <- (if (0 <? fst cnt)%nat then
               update (with_successMessage
                         (Some (backed_up_message (fst cnt)))) ;;
               ret [TClearMessage]
             else ret []) ;;
  when (0 <? snd cnt)%nat
    (update (with_error (Some (failed_message (snd cnt))))) ;;
  update (with_isUploading false) ;;
  ret timers.

(** The head of the loop of [handleUpload], up to the next [await]: the
    lookup in the captured array, and the request it leads to. *)
Definition nextGame (snap : AppState) (games : list DetectedGame.t)
    (cnt : nat * nat) : M (list Task) :=
  match games with
  | [] => finishUpload cnt
  | game :: rest =>
      match List.find (same_name game) (gameProfiles snap) with
      | Some profile => ret [TUpload snap game profile rest cnt None]
      | None => ret [TCreate snap game rest cnt None]
      end
  end.

(** The rest of a handler, run when the answer to its request arrives
    (or when the timer fires), up to its next [await]; the result is the
    tasks it leaves pending.  [loadGameProfiles()] is called without
    [await]: its request is left pending and the caller goes on. *)
Definition resume (t : Task) : option (M (list Task)) :=
  match t with
  | TAuthStatus (Some r) =>
      Some match r with
           | Ok status =>
               update (with_authStatus (Some status)) ;;
               ret (if AuthStatus.is_authenticated status
                    then [TGameProfiles None] else [])
           | Err e => update (with_error (Some e)) ;; ret []
           end
  | TGameProfiles (Some r) =>
      Some (match r with
            | Ok profiles => update (with_gameProfiles profiles)
            | Err e => console_error ("Failed to load game profiles: " +:+ e)
            end ;;
            ret [])
  | TLogin _ _ (Some r) =>
      Some (tasks <- match r with
                     | Ok status =>
                         update (with_authStatus (Some status)) ;;
                         update (with_sessionCookie "") ;;
                         update (with_showLoginForm false) ;;
                         if AuthStatus.is_authenticated status then
                           update (with_successMessage
                             (Some "Successfully connected to SaveKnight!")) ;;
                           ret [TGameProfiles None; TClearMessage]
                         else ret []
                     | Err e => update (with_error (Some e)) ;; ret []
                     end ;;
            update (with_isLoggingIn false) ;;
            ret tasks)
  | TLogout (Some r) =>
      Some (match r with
            | Ok _ =>
                update (with_authStatus
                          (Some (AuthStatus.Build false None None None))) ;;
                update (with_detectedGames []) ;;
                update (with_selectedGames ∅) ;;
                update (with_gameProfiles [])
            | Err e => update (with_error (Some e))
            end ;;
            ret [])
  | TScan (Some r) =>
      Some (tasks <- match r with
                     | Ok gs =>
                         update (with_detectedGames gs) ;;
                         if (0 <? length gs)%nat then
                           update (with_successMessage
                             (Some ("Found " +:+ pretty (length gs)
                                    +:+ " games with save files!"))) ;;
                           ret [TClearMessage]
                         else ret []
                     | Err e => update (with_error (Some e)) ;; ret []
                     end ;;
            update (with_isScanning false) ;;
            ret tasks)
  | TCreate snap game rest cnt (Some r) =>
      Some match r with
           | Ok newProfile =>
               update (fun s => with_gameProfiles
                                  (gameProfiles s ++ [newProfile]) s) ;;
               ret [TUpload snap game newProfile rest cnt None]
           | Err e =>
               console_error ("Failed to create profile for "
                              +:+ DetectedGame.name game +:+ ": " +:+ e) ;;
               nextGame snap rest (fst cnt, S (snd cnt))
           end
  | TUpload snap game _ rest cnt (Some r) =>
      Some match r with
           | Ok _ => nextGame snap rest (S (fst cnt), snd cnt)
           | Err e =>
               console_error ("Failed to upload " +:+ DetectedGame.name game
                              +:+ ": " +:+ e) ;;
               nextGame snap rest (fst cnt, S (snd cnt))
           end
  | TClearMessage => Some (update (with_successMessage None) ;; ret [])
  | _ => None
  end.

(** The handler bound to an action, closed over the render [snap], up
    to its first [await]. *)
Definition begin (snap : AppState) (a : Action) : M (list Task) :=
  match a with
  | ALogin =>
      if String.eqb (trim (sessionCookie snap)) "" then
        update (with_error (Some "Please enter your session cookie")) ;;
        ret []
      else if String.eqb (trim (deviceName snap)) "" then
        update (with_error (Some "Please enter a device name")) ;; ret []
      else
        update (with_isLoggingIn true) ;;
        update (with_error None) ;;
        ret [TLogin (trim (sessionCookie snap)) (trim (deviceName snap)) None]
  | AScan | ATriggerScan =>
      update (with_isScanning true) ;;
      update (with_error None) ;;
      ret [TScan None]
  | AUpload =>
      if (size (selectedGames snap) =? 0)%nat then
        update (with_error (Some "Please select at least one game to backup")) ;;
        ret []
      else
        update (with_isUploading true) ;;
        update (with_error None) ;;
        nextGame snap (gamesToUpload snap) (0, 0)%nat
  | ALogout => ret [TLogout None]
  | _ => handler snap a ;; ret []
  end.

(** The effect of the first render, up to the [await] of [checkAuth]. *)
Definition mount (userAgent : string) : M (list Task) :=
  update (with_deviceName
            (if includes "Windows" userAgent then "Windows PC" else "Desktop")) ;;
  ret [TAuthStatus None].

(** The component with what is pending. *)
Record Config : Type := mkConfig {
  sys : Sys;
  tasks : list Task
}.

(** One step: an action that the current render offers is taken; the
    backend answers the pending request at some position; the answer at
    some position reaches the handler that waits for it (or the timer
    there fires). *)
Inductive Label : Type :=
| LAct (a : Action)
| LServe (i : nat)
| LDeliver (i : nat).

Definition step (l : Label) (c : Config) : option Config :=
  match l with
  | LAct a =>
      if enabled (live (sys c)) a then
        let '(started, σ) := begin (live (sys c)) a (sys c) in
        Some (mkConfig σ (tasks c ++ started))
      else None
  | LServe i =>
      match tasks c !! i with
      | Some t =>
          match serve t with
          | Some m =>
              let '(t', σ) := m (sys c) in
              Some (mkConfig σ (<[i := t']> (tasks c)))
          | None => None
          end
      | None => None
      end
  | LDeliver i =>
      match tasks c !! i with
      | Some t =>
          match resume t with
          | Some m =>
              let '(started, σ) := m (sys c) in
              Some (mkConfig σ (delete i (tasks c) ++ started))
          | None => None
          end
      | None => None
      end
  end.

(** A schedule, step by step. *)
Fixpoint exec (ls : list Label) (c : Config) : option Config :=
  match ls with
  | [] => Some c
  | l :: rest =>
      match step l c with
      | Some c' => exec rest c'
      | None => None
      end
  end.

(** A schedule during which the user is signed in: the render of every
    configuration it goes through is the main screen. *)
Fixpoint session (ls : list Label) (c : Config) : option Config :=
  if authenticated (live (sys c)) then
    match ls with
    | [] => Some c
    | l :: rest =>
        match step l c with
        | Some c' => session rest c'
        | None => None
        end
    end
  else None.
End Handlers.

Arguments Sys W : clear implicits.
Arguments M W A : clear implicits.
Arguments Config W : clear implicits.

(** ** The scanner behind [scan_games] *)

Definition sumZ (l : list Z) : Z := foldr Z.add 0 l.

(** The aggregation invariant of a [DetectedGame]. *)
Definition aggregated (g : DetectedGame.t) : Prop :=
  DetectedGame.total_size_bytes g
  = sumZ (map DetectedSavePath.total_size_bytes (DetectedGame.paths g)).

Module Scanner.
Record ManifestEntry : Type := mkEntry {
  game_name : string;
  path_patterns : list string
}.

Record ResolvedPath : Type := mkResolved {
  pattern : string;
  absolute_path : string;
  exists_ : bool
}.

(** A regular file found under a resolved root: its size in bytes and
    its modification time. *)
Record FileStat : Type := mkFile {
  size_bytes : Z;
  modified : Z
}.

Section Scan.
(** The path resolver ([None]: the pattern is malformed), the regular
    files enumerated below a resolved root ([None]: the root cannot
    be read) and the rendering of a timestamp are collaborators. *)
Variable resolve : string -> option (list ResolvedPath).
Variable files_under : string -> option (list FileStat).
Variable show_time : Z -> string.

(** Totals of one root, accumulated file by file:
    (file count, bytes, latest modification). *)
Definition tally (acc : Z * Z * option Z) (f : FileStat)
  : Z * Z * option Z :=
  let '(n, bytes, latest) := acc in
  (n + 1, bytes + size_bytes f,
   Some (match latest with
         | Some t => Z.max t (modified f)
         | None => modified f
         end)).

Definition absent (r : ResolvedPath) : DetectedSavePath.t :=
  DetectedSavePath.Build (pattern r) (absolute_path r) false 0 0.

(** Modelled from the spec: [scan_path] of the Scanner (section 4.2),
    part of the backend command [scan_games], which is not among the
    sources.  A path that does not exist, or whose root cannot be
    read, is kept with [exists = false] and zero totals. *)
Definition scan_path (r : ResolvedPath)
  : DetectedSavePath.t * option Z :=
  if exists_ r then
    match files_under (absolute_path r) with
    | Some fs =>
        let '(n, bytes, latest) := fold_left tally fs (0, 0, None) in
        (DetectedSavePath.Build (pattern r) (absolute_path r) true n bytes,
         latest)
    | None => (absent r, None)
    end
  else (absent r, None).

(** First occurrence of every absolute path, in pattern order. *)
Fixpoint dedup (seen : list string) (rs : list ResolvedPath)
  : list ResolvedPath :=
  match rs with
  | [] => []
  | r :: rest =>
      if bool_decide (absolute_path r ∈ seen) then dedup seen rest
      else r :: dedup (absolute_path r :: seen) rest
  end.

Fixpoint resolve_all (patterns : list string)
  : option (list ResolvedPath) :=
  match patterns with
  | [] => Some []
  | p :: rest =>
      match resolve p, resolve_all rest with
      | Some rs, Some rs' => Some (rs ++ rs')
      | _, _ => None
      end
  end.

Definition later (a b : option Z) : option Z :=
  match a, b with
  | Some x, Some y => Some (Z.max x y)
  | Some x, None => Some x
  | None, _ => b
  end.

(** Totals of one game, accumulated path by path:
    (paths so far, bytes, latest modification). *)
Definition add_path
    (acc : list DetectedSavePath.t * Z * option Z)
    (r : ResolvedPath) : list DetectedSavePath.t * Z * option Z :=
  let '(ps, bytes, latest) := acc in
  let '(p, t) := scan_path r in
  (ps ++ [p], bytes + DetectedSavePath.total_size_bytes p,
   later latest t).

(** Modelled from the spec: the per-game step of the Scanner's [scan]
    (section 4.2), not among the sources.  An entry with a malformed
    pattern or without an existing save location yields no game. *)
Definition scan_entry (e : ManifestEntry) : option DetectedGame.t :=
  match resolve_all (path_patterns e) with
  | None => None
  | Some rs =>
      let '(ps, bytes, latest) :=
        fold_left add_path (dedup [] rs) ([], 0, None) in
      if existsb DetectedSavePath.exists_ ps then
        Some (DetectedGame.Build (game_name e) ps bytes
                (option_map show_time latest))
      else None
  end.

(** Modelled from the spec: [scan] of the Scanner (section 4.2), the
    function behind the backend command [scan_games], not among the
    sources. *)
Definition scan (entries : list ManifestEntry) : list DetectedGame.t :=
  omap scan_entry entries.
End Scan.
End Scanner.

(** The running byte total of a game is the sum over the paths scanned
    so far. *)
Definition tallied (acc : list DetectedSavePath.t * Z * option Z) : Prop :=
  snd (fst acc)
  = sumZ (map DetectedSavePath.total_size_bytes (fst (fst acc))).

(** ** A scripted backend

    A backend to run the handlers on: profiles are numbered as they are
    created, and the script says which creations and which uploads are
    refused, what the manifest holds and what the disk holds. *)

Module Scripted.
Record World : Type := mkWorld {
  next_id : nat;
  remote_profiles : list GameProfile.t;
  refuse_create : list string;
  refuse_upload : list string;
  manifest : list Scanner.ManifestEntry;
  disk : list (string * list Scanner.FileStat);
  signed_in : bool
}.

Definition with_profile (p : GameProfile.t) (w : World) : World :=
  mkWorld (S (next_id w)) (remote_profiles w ++ [p]) (refuse_create w)
    (refuse_upload w) (manifest w) (disk w) (signed_in w).

Definition with_signed_in (b : bool) (w : World) : World :=
  mkWorld (next_id w) (remote_profiles w) (refuse_create w)
    (refuse_upload w) (manifest w) (disk w) b.

Definition status (w : World) : AuthStatus.t :=
  if signed_in w then
    AuthStatus.Build true (Some "device-1") (Some "player@example.com")
      (Some "Free")
  else AuthStatus.Build false None None None.

(** Every pattern is a literal path here; it exists when the disk
    lists it. *)
Definition files_under (w : World) (path : string)
  : option (list Scanner.FileStat) :=
  snd <$> List.find (fun e => String.eqb (fst e) path) (disk w).

Definition resolve (w : World) (pattern : string)
  : option (list Scanner.ResolvedPath) :=
  Some [Scanner.mkResolved pattern pattern
          (match files_under w pattern with Some _ => true | None => false end)].

Definition create (name platform : string) (w : World)
  : Result GameProfile.t * World :=
  if bool_decide (name ∈ refuse_create w) then (Err "network error", w)
  else
    let p := GameProfile.Build ("profile-" +:+ pretty (next_id w)) name platform in
    (Ok p, with_profile p w).

Definition upload (gs : list DetectedGame.t) (gameProfileId : string)
    (w : World) : Result unit * World :=
  if existsb (fun g => bool_decide (DetectedGame.name g ∈ refuse_upload w)) gs
  then (Err "network error", w)
  else (Ok tt, w).

#[export] Instance backend : Backend World := {
  get_auth_status w := (Ok (status w), w);
  get_game_profiles w := (Ok (remote_profiles w), w);
  login cookie device w :=
    if String.eqb cookie "valid" then
      (Ok (status (with_signed_in true w)), with_signed_in true w)
    else (Err "invalid session cookie", w);
  logout w := (Ok tt, with_signed_in false w);
  scan_games w :=
    (Ok (Scanner.scan (resolve w) (files_under w) pretty (manifest w)), w);
  create_game_profile := create;
  upload_saves := upload
}.

Definition start (w : World) (s : AppState) : Sys World :=
  mkSys s w [] [].

Definition game (name : string) : DetectedGame.t :=
  DetectedGame.Build name [] 0 None.

(** A signed-in state showing [gs], with [sel] selected and [cache] as
    the profile cache. *)
Definition showing (gs : list DetectedGame.t) (sel : gset string)
    (cache : list GameProfile.t) : AppState :=
  with_gameProfiles cache
    (with_selectedGames sel
       (with_detectedGames gs
          (with_authStatus
             (Some (AuthStatus.Build true (Some "device-1")
                      (Some "player@example.com") (Some "Free")))
             initial))).

Definition quiet : World := mkWorld 1 [] [] [] [] [] true.

Definition refusing_upload (names : list string) : World :=
  mkWorld 1 [] [] names [] [] true.

Definition refusing_create (names : list string) : World :=
  mkWorld 1 [] names [] [] [] true.

Definition alpha : DetectedGame.t := game "Alpha".
Definition beta : DetectedGame.t := game "Beta".
Definition gamma : DetectedGame.t := game "Gamma".
Definition doom : DetectedGame.t := game "Doom".
Definition DOOM : DetectedGame.t := game "DOOM".

Definition profile (n : nat) (name : string) : GameProfile.t :=
  GameProfile.Build ("profile-" +:+ pretty n) name "PC".

(** Three games selected, no profile cached. *)
Definition three : AppState :=
  showing [alpha; beta; gamma] {["Alpha"; "Beta"; "Gamma"]} [].

(** One game selected, first with an empty cache, then with the cache
    the first backup left. *)
Definition first : AppState := showing [alpha] {["Alpha"]} [].
Definition second : AppState := showing [alpha] {["Alpha"]} [profile 1 "Alpha"].

(** Two games whose names differ only in letter case, both selected. *)
Definition twins : AppState := showing [doom; DOOM] {["Doom"; "DOOM"]} [].

(** The example of the specification: one manifest entry, two files of
    4096 bytes in all at its path. *)
Definition example_disk : World :=
  mkWorld 1 [] [] []
    [Scanner.mkEntry "Example Game" ["<appdata>/ExampleGame/saves"]]
    [("<appdata>/ExampleGame/saves",
      [Scanner.mkFile 4000 10; Scanner.mkFile 96 20])]
    true.

(** A backend on which nobody is signed in. *)
Definition signed_out : World := mkWorld 1 [] [] [] [] [] false.

(** The component just mounted on the example disk, where the user is
    signed in already: the status check is pending. *)
Definition mounted : Config World :=
  let '(pending, σ) :=
    mount "Mozilla/5.0 (Windows NT 10.0)" (start example_disk initial) in
  mkConfig σ pending.

(** The configuration a schedule leads to from there. *)
Definition after (ls : list Label) : Config World :=
  default mounted (exec (JS := ascii_strings) ls mounted).

(** The status check is answered and its answer arrives: the main
    screen is shown and the listing of the profiles is requested. *)
Definition status_check : list Label := [LServe 0; LDeliver 0].

(** The backend answers the listing (no profile yet), but the answer is
    still on its way while the user scans, selects the game found and
    backs it up, every answer to these arriving at once. *)
Definition backup_before_listing : list Label :=
  [LServe 0;
   LAct AScan; LServe 1; LDeliver 1;
   LAct ASelectAll;
   LAct AUpload; LServe 2; LDeliver 2; LServe 2; LDeliver 2].

(** The login form filled in, with white space around both fields. *)
Definition form (cookie device : string) : AppState :=
  with_showLoginForm true
    (with_deviceName device (with_sessionCookie cookie initial)).
End Scripted.

(** ** Names that differ only in letter case *)

(** Two characters are the same letter up to case: equal, or one an
    upper-case ASCII letter and the other its lower-case form, 32 code
    points above. *)
Definition case_variants (a b : ascii) : bool :=
  Ascii.eqb a b
  || (is_upper a && (N_of_ascii b =? N_of_ascii a + 32)%N)
  || (is_upper b && (N_of_ascii a =? N_of_ascii b + 32)%N).

(** Two names differ only in letter case: same length, and the same
    letter up to case at every position. *)
Fixpoint differ_only_in_case (s t : string) : bool :=
  match s, t with
  | EmptyString, EmptyString => true
  | String a s', String b t' => case_variants a b && differ_only_in_case s' t'
  | _, _ => false
  end.

(** The 256 characters. *)
Definition all_ascii : list ascii := map ascii_of_nat (seq 0 256).

(** ** Reading a trace *)

(** An upload that went through. *)
Definition uploaded (c : Call) : bool :=
  match c with
  | CUploadSaves _ _ (Ok _) => true
  | _ => false
  end.

(** A profile creation or an upload that was refused. *)
Definition failed (c : Call) : bool :=
  match c with
  | CUploadSaves _ _ (Err _) => true
  | CCreateGameProfile _ _ (Err _) => true
  | _ => false
  end.

Definition created_by (c : Call) : option GameProfile.t :=
  match c with
  | CCreateGameProfile _ _ (Ok p) => Some p
  | _ => None
  end.

(** The profiles that the creations of a trace returned, in order. *)
Definition created (tr : list Call) : list GameProfile.t :=
  omap created_by tr.

Definition count (f : Call -> bool) (tr : list Call) : nat :=
  length (List.filter f tr).

(** The calls that running [m] from [σ] adds to the trace. *)
Definition issued {W A} (m : M W A) (σ : Sys W) : list Call :=
  drop (length (calls σ)) (calls (snd (m σ))).

(** The game was dealt with: its upload was requested, or the creation
    of its profile was refused. *)
Definition attempted (g : DetectedGame.t) (tr : list Call) : Prop :=
  (exists gameProfileId r, CUploadSaves [g] gameProfileId r ∈ tr)
  \/ (exists e, CCreateGameProfile (DetectedGame.name g) "PC" (Err e) ∈ tr).

(** The calls one game gives rise to, against the captured cache. *)
Inductive settles {JS : JSString}
    (cache : list GameProfile.t) (g : DetectedGame.t)
  : list Call -> Prop :=
| settles_found p r :
    List.find (same_name g) cache = Some p ->
    settles cache g [CUploadSaves [g] (GameProfile.id p) r]
| settles_created p r :
    List.find (same_name g) cache = None ->
    settles cache g
      [CCreateGameProfile (DetectedGame.name g) "PC" (Ok p);
       CUploadSaves [g] (GameProfile.id p) r]
| settles_refused e :
    List.find (same_name g) cache = None ->
    settles cache g [CCreateGameProfile (DetectedGame.name g) "PC" (Err e)].

(** The calls of a batch: those of its games, one game after the other. *)
Inductive batch_trace {JS : JSString} (cache : list GameProfile.t)
  : list DetectedGame.t -> list Call -> Prop :=
| batch_nil : batch_trace cache [] []
| batch_cons g gs t ts :
    settles cache g t ->
    batch_trace cache gs ts ->
    batch_trace cache (g :: gs) (t ++ ts).

(** A creation recorded in a trace is genuine when the backend gave
    that answer to that request in some world. *)
Definition genuine {W : Type} `{B : Backend W} (c : Call) : Prop :=
  match c with
  | CCreateGameProfile name platform r =>
      exists w w', create_game_profile name platform w = (r, w')
  | _ => True
  end.

(** The name of a game with the letter case folded away. *)
Definition folded {JS : JSString} (g : DetectedGame.t) : string :=
  toLowerCase (DetectedGame.name g).

(** A creation that went through, for a name that is [name] up to
    letter case. *)
Definition creates {JS : JSString} (name : string) (c : Call) : bool :=
  match c with
  | CCreateGameProfile n _ (Ok _) => String.eqb (toLowerCase n) (toLowerCase name)
  | _ => false
  end.

(** Modelled from the spec: the operation "create game profile (name,
    platform) -> profile" of the remote API (section 6), reached through
    the backend command [create_game_profile], which is not among the
    sources: the profile it returns carries the name that was asked for,
    up to letter case. *)
Definition keeps_names {W : Type} `{B : Backend W} {JS : JSString} : Prop :=
  forall name platform w p w',
    create_game_profile name platform w = (Ok p, w') ->
    toLowerCase (GameProfile.name p) = toLowerCase name.

(** ** White space at the ends of a string *)

(** A string of white space only (the empty string included). *)
Fixpoint blank (s : string) : bool :=
  match s with
  | EmptyString => true
  | String c r => is_space c && blank r
  end.

Definition first_char (s : string) : option ascii :=
  match s with
  | EmptyString => None
  | String c _ => Some c
  end.

Definition last_char (s : string) : option ascii :=
  first_char (String.rev s).

(** ** The two screens *)

(** The actions bound on the main screen (the second [return] of the
    component); the others are those of the login screen and the
    [trigger-scan] event. *)
Definition main_screen (a : Action) : bool :=
  match a with
  | ASetTab _ | ADismissError | AScan | AUpload
  | ASelectAll | ADeselectAll | AToggle _ | ALogout => true
  | _ => false
  end.

(** Every selected name is the name of a detected game. *)
Definition selection_detected (s : AppState) : Prop :=
  forall x, x ∈ selectedGames s -> x ∈ DetectedGame.name <$> detectedGames s.

(** ** Schedules *)

(** A step of the backend or of a waiting handler, as opposed to a new
    action. *)
Definition follow_up (l : Label) : Prop :=
  match l with
  | LAct _ => False
  | _ => True
  end.

(** * Properties *)

(** Linear arithmetic with divisions by a constant. *)
Ltac dlia := Z.div_mod_to_equations; lia.

Ltac inv_elem :=
  repeat match goal with
  | H : _ ∈ [] |- _ => apply elem_of_nil in H; destruct H
  | H : _ ∈ _ :: _ |- _ => apply elem_of_cons in H as [H|H]
  | H : _ ∈ _ ++ _ |- _ => apply elem_of_app in H as [H|H]
  end.

Section WithStrings.
Context {JS : JSString}.

(** ** [formatBytes]: the unit index *)

Lemma pow_k (i : Z) : 0 <= i -> k ^ i = 2 ^ (10 * i).
Proof.
  intros Hi. unfold k. change 1024 with (2 ^ 10).
  now rewrite <- Z.pow_mul_r by lia.
Qed.

(** [log_index] is the floor of the base-[k] logarithm. *)
Lemma log_index_spec (bytes : Z) :
  0 < bytes ->
  0 <= log_index bytes /\
  k ^ log_index bytes <= bytes < k ^ (log_index bytes + 1).
Proof.
  intros Hpos. unfold log_index.
  pose proof (Z.log2_nonneg bytes) as Hnn.
  pose proof (Z.log2_spec bytes Hpos) as [Hlo Hhi].
  set (L := Z.log2 bytes) in *.
  assert (Hi : 0 <= L / 10) by (apply Z.div_pos; lia).
  split; [exact Hi|].
  rewrite !pow_k by lia. split.
  - etrans; [|exact Hlo]. apply Z.pow_le_mono_r; [lia|dlia].
  - eapply Z.lt_le_trans; [exact Hhi|]. apply Z.pow_le_mono_r; [lia|dlia].
Qed.

Lemma log_index_small (bytes : Z) :
  0 < bytes < k ^ 4 -> 0 <= log_index bytes < 4.
Proof.
  intros [Hpos Hlt]. unfold log_index.
  pose proof (Z.log2_nonneg bytes) as Hnn.
  assert (Z.log2 bytes < 40) as Hl.
  { apply Z.log2_lt_pow2; [lia|]. now rewrite pow_k in Hlt by lia. }
  dlia.
Qed.

Lemma log_index_large (bytes : Z) :
  k ^ 4 <= bytes -> 4 <= log_index bytes.
Proof.
  intros Hge. unfold log_index.
  assert (0 < bytes) as Hpos.
  { eapply Z.lt_le_trans; [|exact Hge]. reflexivity. }
  assert (40 <= Z.log2 bytes) as Hl.
  { apply Z.log2_le_pow2; [lia|]. now rewrite pow_k in Hge by lia. }
  dlia.
Qed.

Lemma unit_at_inside (i : Z) :
  0 <= i < 4 -> exists u, unit_at i = Some u /\ u ∈ sizes.
Proof.
  intros Hi.
  assert (i = 0 \/ i = 1 \/ i = 2 \/ i = 3) as Hc by lia.
  destruct Hc as [-> | [-> | [-> | ->]]]; eexists; (split; [reflexivity|]);
    unfold sizes; set_solver.
Qed.

Lemma unit_at_outside (i : Z) : 4 <= i -> unit_at i = None.
Proof.
  intros Hi. unfold unit_at.
  destruct (Z.ltb_spec i 0) as [?|_]; [lia|].
  apply lookup_ge_None_2. simpl. lia.
Qed.

Lemma formatBytes_positive (bytes : Z) :
  0 < bytes ->
  formatBytes bytes
  = show_hundredths (hundredths bytes (k ^ log_index bytes))
    +:+ " " +:+ show_unit (unit_at (log_index bytes)).
Proof.
  intros Hpos. unfold formatBytes.
  destruct (Z.eqb_spec bytes 0) as [?|_]; [lia|].
  destruct (Z.ltb_spec bytes 0) as [?|_]; [lia|]. reflexivity.
Qed.

(** C10.  [formatBytes 0] is the string "0 B"; for [0 < bytes < 1024^4]
    the unit index lies inside [sizes] and the result is the quotient by
    the chosen power of 1024, rounded to hundredths, a blank, and one of
    "B", "KB", "MB", "GB"; from [1024^4] on the index is at least the
    length of [sizes], the array read gives [undefined], and the result
    ends in "undefined" instead of a unit. *)
Theorem formatBytes_units :
  formatBytes 0 = "0 B"
  /\ (forall bytes, 0 < bytes < 1024 ^ 4 ->
        exists u, u ∈ sizes
          /\ sizes !! Z.to_nat (log_index bytes) = Some u
          /\ formatBytes bytes
             = show_hundredths (hundredths bytes (k ^ log_index bytes))
               +:+ " " +:+ u)
  /\ (forall bytes, 1024 ^ 4 <= bytes ->
        Z.of_nat (length sizes) <= log_index bytes
        /\ sizes !! Z.to_nat (log_index bytes) = None
        /\ exists number, formatBytes bytes = number +:+ " undefined").
Proof.
  split; [reflexivity|]. split.
  - intros bytes Hb.
    pose proof (log_index_small bytes Hb) as Hi.
    destruct (unit_at_inside _ Hi) as (u & Hu & Hin).
    exists u. split; [exact Hin|]. split.
    + unfold unit_at in Hu.
      destruct (Z.ltb_spec (log_index bytes) 0); [lia|exact Hu].
    + rewrite formatBytes_positive by lia. now rewrite Hu.
  - intros bytes Hb.
    pose proof (log_index_large bytes Hb) as Hi.
    pose proof (unit_at_outside _ Hi) as Hu.
    assert (0 < bytes) as Hpos.
    { eapply Z.lt_le_trans; [|exact Hb]. reflexivity. }
    split; [simpl; lia|]. split.
    + unfold unit_at in Hu.
      destruct (Z.ltb_spec (log_index bytes) 0); [lia|exact Hu].
    + rewrite formatBytes_positive by lia. rewrite Hu.
      eexists. reflexivity.
Qed.

Lemma formatBytes_units_witness :
  formatBytes 1536 = "1.5 KB"
  /\ sizes !! Z.to_nat (log_index (1024 ^ 4)) = None.
Proof.
  destruct formatBytes_units as (_ & Hin & Hout). split.
  - destruct (Hin 1536 ltac:(lia)) as (u & _ & Hu & ->).
    vm_compute in Hu. injection Hu as <-. vm_compute. reflexivity.
  - destruct (Hout (1024 ^ 4) ltac:(lia)) as (_ & Hnone & _).
    exact Hnone.
Defined.

(** ** Selection *)

Section Selection.
Context {W : Type} `{B : Backend W}.

Lemma toggled_twice (g : string) (s : gset string) :
  toggled g (toggled g s) = s.
Proof.
  unfold toggled.
  destruct (decide (g ∈ s)) as [Hin|Hout].
  - rewrite (bool_decide_eq_true_2 _ Hin).
    rewrite bool_decide_eq_false_2 by set_solver.
    apply set_eq. intros x. destruct (decide (x = g)); set_solver.
  - rewrite (bool_decide_eq_false_2 _ Hout).
    rewrite bool_decide_eq_true_2 by set_solver.
    set_solver.
Qed.

Lemma with_selectedGames_same (s : AppState) :
  with_selectedGames (selectedGames s) s = s.
Proof. now destruct s. Qed.

(** C9.  The handler replaces the selection by the toggled one and
    changes nothing else; toggling a name twice gives back the selection
    it started from, both for the updater and for the handler run twice
    on a state; one toggle flips the membership of that name and of no
    other. *)
Theorem toggleGameSelection_involution (g : string) (s : gset string) (σ : Sys W) :
  toggled g (toggled g s) = s
  /\ selectedGames (live (run (toggleGameSelection g) σ))
     = toggled g (selectedGames (live σ))
  /\ run (toggleGameSelection g) σ
     = mkSys (with_selectedGames (toggled g (selectedGames (live σ))) (live σ))
         (world σ) (calls σ) (console σ)
  /\ run (toggleGameSelection g) (run (toggleGameSelection g) σ) = σ
  /\ (g ∈ toggled g s <-> g ∉ s)
  /\ (forall h, h <> g -> (h ∈ toggled g s <-> h ∈ s)).
Proof.
  split; [apply toggled_twice|].
  split; [reflexivity|]. split; [reflexivity|]. split.
  - destruct σ as [l w c o]. unfold run, toggleGameSelection, update. simpl.
    f_equal. destruct l; unfold with_selectedGames; simpl.
    now rewrite toggled_twice.
  - unfold toggled. split; [|intros h Hh]; case_bool_decide; set_solver.
Qed.
End Selection.

(** ** The upload loop *)

Section Upload.
Context {W : Type} `{B : Backend W}.

Lemma count_app (f : Call -> bool) (t1 t2 : list Call) :
  count f (t1 ++ t2) = (count f t1 + count f t2)%nat.
Proof. unfold count. now rewrite List.filter_app, length_app. Qed.

Lemma created_app (t1 t2 : list Call) :
  created (t1 ++ t2) = created t1 ++ created t2.
Proof. apply omap_app. Qed.

Lemma with_gameProfiles_same (s : AppState) :
  with_gameProfiles (gameProfiles s ++ []) s = s.
Proof. destruct s. unfold with_gameProfiles. simpl. now rewrite app_nil_r. Qed.

(** What one iteration does: its calls, its counters, and the live
    state, which changes in the profile cache only. *)
Lemma processGame_spec (snap : AppState) (g : DetectedGame.t)
    (cnt : nat * nat) (σ : Sys W) :
  exists t w' o',
    processGame snap g cnt σ
    = ((fst cnt + count uploaded t, snd cnt + count failed t)%nat,
       mkSys (with_gameProfiles (gameProfiles (live σ) ++ created t) (live σ))
             w' (calls σ ++ t) o')
    /\ settles (gameProfiles snap) g t
    /\ Forall genuine t.
Proof.
  destruct σ as [l w c o], cnt as [sc fc]. unfold processGame.
  destruct (List.find (same_name g) (gameProfiles snap)) as [p|] eqn:Hfind.
  - unfold uploadGame, bind, invoke, console_error, ret. simpl.
    destruct (upload_saves [g] (GameProfile.id p) w) as [r w'] eqn:Hup.
    exists [CUploadSaves [g] (GameProfile.id p) r], w'.
    destruct r as [u|e]; simpl; eexists;
      (split; [|split; [eapply settles_found; exact Hfind
                       |repeat constructor]]);
      unfold count; simpl; rewrite with_gameProfiles_same;
      repeat f_equal; lia.
  - unfold bind at 1. unfold invoke at 1. simpl.
    destruct (create_game_profile (DetectedGame.name g) "PC" w)
      as [[p|e] w'] eqn:Hcr.
    + unfold uploadGame, bind, invoke, update, console_error, ret. simpl.
      destruct (upload_saves [g] (GameProfile.id p) w') as [r w''] eqn:Hup.
      exists [CCreateGameProfile (DetectedGame.name g) "PC" (Ok p);
              CUploadSaves [g] (GameProfile.id p) r], w''.
      destruct r as [u|e]; simpl; eexists;
        (split; [|split; [eapply settles_created; exact Hfind
                         |repeat constructor; now exists w, w']]);
        unfold count; simpl; rewrite <- app_assoc; simpl;
        repeat f_equal; lia.
    + unfold bind, console_error, ret. simpl.
      exists [CCreateGameProfile (DetectedGame.name g) "PC" (Err e)], w'.
      eexists. split; [|split; [eapply settles_refused; exact Hfind
                               |repeat constructor; now exists w, w']].
      unfold count. simpl. rewrite with_gameProfiles_same.
      repeat f_equal; lia.
Qed.

Lemma uploadLoop_spec (snap : AppState) (gs : list DetectedGame.t) :
  forall (cnt : nat * nat) (σ : Sys W),
  exists tr w' o',
    uploadLoop snap gs cnt σ
    = ((fst cnt + count uploaded tr, snd cnt + count failed tr)%nat,
       mkSys (with_gameProfiles (gameProfiles (live σ) ++ created tr) (live σ))
             w' (calls σ ++ tr) o')
    /\ batch_trace (gameProfiles snap) gs tr
    /\ Forall genuine tr.
Proof.
  induction gs as [|g gs IH]; intros cnt σ.
  - exists [], (world σ), (console σ). split; [|split; constructor].
    destruct σ as [l w c o], cnt as [sc fc]. unfold uploadLoop, ret, count.
    simpl. rewrite with_gameProfiles_same, app_nil_r.
    repeat f_equal; lia.
  - destruct (processGame_spec snap g cnt σ)
      as (t & w1 & o1 & Hstep & Hset & Hgen).
    simpl. unfold bind. rewrite Hstep.
    edestruct IH as (ts & w2 & o2 & Hrest & Hbatch & Hgens). rewrite Hrest.
    exists (t ++ ts), w2, o2.
    split; [|split; [now constructor|now apply Forall_app]].
    simpl. rewrite !count_app, created_app.
    f_equal; [f_equal; lia|].
    f_equal; [|now rewrite app_assoc].
    unfold with_gameProfiles. simpl. now rewrite app_assoc.
Qed.

Lemma settles_counts cache g t :
  settles cache g t -> (count uploaded t + count failed t = 1)%nat.
Proof. intros H. destruct H; try destruct r; reflexivity. Qed.

Lemma batch_trace_counts cache gs tr :
  batch_trace cache gs tr ->
  (count uploaded tr + count failed tr = length gs)%nat.
Proof.
  induction 1 as [|g gs t ts Hset _ IH]; [reflexivity|].
  rewrite !count_app. simpl. pose proof (settles_counts _ _ _ Hset). lia.
Qed.

Lemma settles_attempted cache g t : settles cache g t -> attempted g t.
Proof.
  intros H. destruct H; [left|left|right]; repeat eexists;
    repeat (first [apply list_elem_of_here | apply list_elem_of_further]).
Qed.

Lemma batch_trace_attempted cache gs tr :
  batch_trace cache gs tr -> forall g, g ∈ gs -> attempted g tr.
Proof.
  induction 1 as [|g0 gs t ts Hset _ IH]; intros g Hin.
  - set_solver.
  - apply elem_of_cons in Hin as [->|Hin].
    + destruct (settles_attempted _ _ _ Hset) as [(i & r & H)|(e & H)];
        [left; exists i, r|right; exists e]; set_solver.
    + destruct (IH g Hin) as [(i & r & H)|(e & H)];
        [left; exists i, r|right; exists e]; set_solver.
Qed.
End Upload.

(** ** The backup operation *)

Section Backup.
Context {W : Type} `{B : Backend W}.

Lemma issued_spec {A} (m : M W A) (σ : Sys W) (tr : list Call) :
  calls (snd (m σ)) = calls σ ++ tr -> issued m σ = tr.
Proof. intros H. unfold issued. rewrite H. apply drop_app_length. Qed.

(** The loop on any batch: the games are settled one by one and none
    stops the loop; the success counter is the number of uploads that
    went through, the failure counter the number of creations and
    uploads that were refused. *)
Lemma uploadLoop_outcomes (snap : AppState)
    (batch : list DetectedGame.t) (σ : Sys W) :
  let result := uploadLoop snap batch (0, 0)%nat σ in
  let tr := issued (uploadLoop snap batch (0, 0)%nat) σ in
  let successCount := fst (fst result) in
  let failCount := snd (fst result) in
  calls (snd result) = calls σ ++ tr
  /\ batch_trace (gameProfiles snap) batch tr
  /\ successCount = count uploaded tr
  /\ failCount = count failed tr
  /\ (successCount + failCount = length batch)%nat
  /\ (forall g, g ∈ batch -> attempted g tr).
Proof.
  destruct (uploadLoop_spec snap batch (0, 0)%nat σ)
    as (tr & w' & o' & Hrun & Hbatch & _).
  assert (issued (uploadLoop snap batch (0, 0)%nat) σ = tr) as Hissued.
  { apply issued_spec. now rewrite Hrun. }
  cbv zeta. rewrite Hissued, Hrun. simpl.
  repeat split; try done.
  - now apply batch_trace_counts with (cache := gameProfiles snap).
  - now apply batch_trace_attempted with (cache := gameProfiles snap) (gs := batch).
Qed.

(** What a backup leaves behind when something was selected. *)
Lemma handleUpload_spec (snap : AppState) (σ : Sys W) :
  size (selectedGames snap) <> 0%nat ->
  exists tr,
    let σ' := run (handleUpload snap) σ in
    batch_trace (gameProfiles snap) (gamesToUpload snap) tr
    /\ Forall genuine tr
    /\ calls σ' = calls σ ++ tr
    /\ gameProfiles (live σ') = gameProfiles (live σ) ++ created tr
    /\ selectedGames (live σ') = ∅
    /\ authStatus (live σ') = authStatus (live σ)
    /\ detectedGames (live σ') = detectedGames (live σ)
    /\ isUploading (live σ') = false
    /\ successMessage (live σ')
       = (if (0 <? count uploaded tr)%nat
          then Some (backed_up_message (count uploaded tr))
          else successMessage (live σ))
    /\ error (live σ')
       = (if (0 <? count failed tr)%nat
          then Some (failed_message (count failed tr))
          else None).
Proof.
  intros Hsel.
  destruct (uploadLoop_spec snap (gamesToUpload snap) (0, 0)%nat
              (mkSys (with_error None (with_isUploading true (live σ)))
                     (world σ) (calls σ) (console σ)))
    as (tr & w' & o' & Hrun & Hbatch & Hgen).
  exists tr. unfold run, handleUpload.
  destruct (Nat.eqb_spec (size (selectedGames snap)) 0) as [?|_]; [done|].
  unfold bind, update. cbn beta iota zeta delta [fst snd live world calls console].
  rewrite Hrun. unfold when, ret.
  destruct (0 <? count uploaded tr)%nat eqn:Hs, (0 <? count failed tr)%nat eqn:Hf;
    simpl; rewrite ?Hs, ?Hf; simpl; repeat split; done.
Qed.

(** C5.  A backup that ran on a non-empty selection leaves the selection
    empty, whatever the backend answered to the creations and uploads of
    the batch. *)
Theorem selection_cleared_after_backup (snap : AppState) (σ : Sys W) :
  size (selectedGames snap) <> 0%nat ->
  selectedGames (live (run (handleUpload snap) σ)) = ∅.
Proof.
  intros Hsel. destruct (handleUpload_spec snap σ Hsel) as (tr & H).
  apply H.
Qed.

(** Taken on the current render, the backup action leaves the selection
    empty in every case: with nothing selected it only reports an
    error. *)
Lemma selection_empty_after_upload_action (σ : Sys W) :
  selectedGames (live (dispatch AUpload σ)) = ∅.
Proof.
  unfold dispatch. simpl.
  destruct (decide (size (selectedGames (live σ)) = 0%nat)) as [Hz|Hnz].
  - unfold handleUpload. rewrite Hz. simpl.
    apply leibniz_equiv. now apply size_empty_inv.
  - destruct (handleUpload_spec (live σ) σ Hnz) as (tr & H). apply H.
Qed.


End Backup.

(** ** Profile lookup and reuse *)


Lemma find_app {A} (f : A -> bool) (l1 l2 : list A) :
  List.find f (l1 ++ l2)
  = match List.find f l1 with
    | Some x => Some x
    | None => List.find f l2
    end.
Proof.
  induction l1 as [|a l1 IH]; simpl; [reflexivity|].
  now destruct (f a).
Qed.

Lemma find_none_elem {A} (f : A -> bool) (l : list A) (x : A) :
  List.find f l = None -> x ∈ l -> f x = false.
Proof.
  intros Hnone Hin. apply (List.find_none f l Hnone).
  now apply list_elem_of_In.
Qed.

Lemma same_name_folded (g g' : DetectedGame.t) (p : GameProfile.t) :
  folded g = folded g' -> same_name g p = same_name g' p.
Proof. unfold same_name, folded. now intros ->. Qed.

(** The lookup sees a game through its folded name only. *)
Lemma find_same_name_folded (g g' : DetectedGame.t) (cache : list GameProfile.t) :
  folded g = folded g' ->
  List.find (same_name g) cache = List.find (same_name g') cache.
Proof.
  intros Heq. induction cache as [|p cache IH]; simpl; [reflexivity|].
  now rewrite (same_name_folded g g' p Heq), IH.
Qed.

Lemma same_name_true (g : DetectedGame.t) (p : GameProfile.t) :
  same_name g p = true <-> toLowerCase (GameProfile.name p) = folded g.
Proof. unfold same_name, folded. apply String.eqb_eq. Qed.

Lemma settles_create cache g t name platform r :
  settles cache g t ->
  CCreateGameProfile name platform r ∈ t ->
  name = DetectedGame.name g /\ platform = "PC"
  /\ List.find (same_name g) cache = None.
Proof.
  intros Hs Hin. destruct Hs; inv_elem; try discriminate;
    injection Hin as -> -> _; done.
Qed.

Lemma settles_upload cache g t gs gameProfileId r :
  settles cache g t ->
  CUploadSaves gs gameProfileId r ∈ t ->
  gs = [g]
  /\ ((exists p, List.find (same_name g) cache = Some p
                 /\ gameProfileId = GameProfile.id p)
      \/ (List.find (same_name g) cache = None
          /\ exists p, CCreateGameProfile (DetectedGame.name g) "PC" (Ok p) ∈ t
                       /\ gameProfileId = GameProfile.id p)).
Proof.
  intros Hs Hin. destruct Hs as [p r0 Hf|p r0 Hf|e Hf]; inv_elem;
    try discriminate; injection Hin as -> -> _; (split; [reflexivity|]).
  - left. now exists p.
  - right. split; [exact Hf|]. exists p. split; [|reflexivity].
    apply list_elem_of_here.
Qed.

Lemma batch_trace_create cache gs tr name platform r :
  batch_trace cache gs tr ->
  CCreateGameProfile name platform r ∈ tr ->
  exists g, g ∈ gs /\ name = DetectedGame.name g /\ platform = "PC"
            /\ List.find (same_name g) cache = None.
Proof.
  induction 1 as [|g gs t ts Hs _ IH]; intros Hin; inv_elem.
  - destruct (settles_create _ _ _ _ _ _ Hs Hin) as (-> & -> & Hf).
    exists g. repeat split; [apply list_elem_of_here|exact Hf].
  - destruct (IH Hin) as (g' & Hg' & H').
    exists g'. split; [now apply list_elem_of_further|exact H'].
Qed.

Lemma batch_trace_upload cache gs tr l gameProfileId r :
  batch_trace cache gs tr ->
  CUploadSaves l gameProfileId r ∈ tr ->
  exists g, g ∈ gs /\ l = [g]
    /\ ((exists p, List.find (same_name g) cache = Some p
                   /\ gameProfileId = GameProfile.id p)
        \/ (List.find (same_name g) cache = None
            /\ exists p, CCreateGameProfile (DetectedGame.name g) "PC" (Ok p) ∈ tr
                         /\ gameProfileId = GameProfile.id p)).
Proof.
  induction 1 as [|g gs t ts Hs _ IH]; intros Hin; inv_elem.
  - destruct (settles_upload _ _ _ _ _ _ Hs Hin) as (-> & Hcase).
    exists g. split; [apply list_elem_of_here|]. split; [reflexivity|].
    destruct Hcase as [Hc|(Hf & p & Hp & Hid)]; [now left|right].
    split; [exact Hf|]. exists p. split; [|exact Hid].
    apply elem_of_app. now left.
  - destruct (IH Hin) as (g' & Hg' & -> & Hcase).
    exists g'. split; [now apply list_elem_of_further|]. split; [reflexivity|].
    destruct Hcase as [Hc|(Hf & p & Hp & Hid)]; [now left|right].
    split; [exact Hf|]. exists p. split; [|exact Hid].
    apply elem_of_app. now right.
Qed.

(** A game whose profile is in the captured cache has its upload
    requested under that profile's id. *)
Lemma batch_trace_found cache gs tr g p :
  batch_trace cache gs tr ->
  g ∈ gs ->
  List.find (same_name g) cache = Some p ->
  exists r, CUploadSaves [g] (GameProfile.id p) r ∈ tr.
Proof.
  induction 1 as [|g0 gs t ts Hs _ IH]; intros Hin Hf; inv_elem.
  - subst g0. destruct Hs as [p0 r Hf0|p0 r Hf0|e Hf0]; try congruence.
    assert (p0 = p) as -> by congruence.
    exists r. apply list_elem_of_here.
  - destruct (IH Hin Hf) as (r & Hr). exists r.
    apply elem_of_app. now right.
Qed.

Lemma elem_of_created (tr : list Call) (p : GameProfile.t) :
  p ∈ created tr <->
  exists name platform, CCreateGameProfile name platform (Ok p) ∈ tr.
Proof.
  unfold created. rewrite list_elem_of_omap. split.
  - intros (c & Hc & Hp). destruct c; try discriminate.
    destruct r; try discriminate. injection Hp as ->. eauto.
  - intros (n & pl & Hin). eexists. split; [exact Hin|reflexivity].
Qed.

Section Reuse.
Context {W : Type} `{B : Backend W}.

Lemma genuine_name (tr : list Call) name platform p :
  keeps_names ->
  Forall genuine tr ->
  CCreateGameProfile name platform (Ok p) ∈ tr ->
  toLowerCase (GameProfile.name p) = toLowerCase name.
Proof.
  intros Hk Hg Hin. rewrite Forall_forall in Hg.
  destruct (Hg _ Hin) as (w & w' & Hcall). exact (Hk _ _ _ _ _ Hcall).
Qed.

Lemma created_settles cache g t :
  settles cache g t ->
  created t = []
  \/ exists p, created t = [p]
               /\ CCreateGameProfile (DetectedGame.name g) "PC" (Ok p) ∈ t.
Proof.
  intros Hs. destruct Hs as [p r _|p r _|e _]; [left|right|left]; try done.
  exists p. split; [reflexivity|apply list_elem_of_here].
Qed.

(** With the folded names of a batch pairwise distinct, the profile
    created for a game is the first one among the created profiles that
    the lookup for this game accepts. *)
Lemma find_created cache gs tr g p :
  keeps_names ->
  batch_trace cache gs tr ->
  Forall genuine tr ->
  NoDup (folded <$> gs) ->
  CCreateGameProfile (DetectedGame.name g) "PC" (Ok p) ∈ tr ->
  List.find (same_name g) (created tr) = Some p.
Proof.
  intros Hk Hb. induction Hb as [|g0 gs t ts Hs Hb IH]; intros Hg Hnd Hin.
  - inv_elem.
  - apply Forall_app in Hg as [Hgt Hgts].
    rewrite fmap_cons in Hnd. apply NoDup_cons in Hnd as [Hfresh Hnd].
    rewrite created_app, find_app. inv_elem.
    + destruct (settles_create _ _ _ _ _ _ Hs Hin) as (Hname & _ & _).
      destruct Hs as [p0 r _|p0 r _|e _]; inv_elem; try discriminate.
      injection Hin as _ <-. unfold created.
      cbn [omap list_omap created_by List.find].
      assert (same_name g p = true) as Htrue.
      { apply same_name_true. unfold folded. rewrite Hname.
        apply (genuine_name _ _ "PC" p Hk Hgt). apply list_elem_of_here. }
      now rewrite Htrue.
    + destruct (batch_trace_create _ _ _ _ _ _ Hb Hin) as (g' & Hg' & Hname & _).
      assert (folded g <> folded g0) as Hne.
      { intros Heq. apply Hfresh. rewrite <- Heq.
        unfold folded at 1. rewrite Hname.
        now apply (list_elem_of_fmap_2 folded). }
      destruct (created_settles _ _ _ Hs) as [->|(p0 & -> & Hp0)];
        cbn [List.find].
      * now apply IH.
      * assert (same_name g p0 = false) as Hfalse.
        { apply not_true_is_false. intros Ht. apply same_name_true in Ht.
          apply Hne. rewrite <- Ht. unfold folded.
          exact (genuine_name _ _ "PC" p0 Hk Hgt Hp0). }
        rewrite Hfalse. now apply IH.
Qed.

Lemma count_settles name cache g t :
  settles cache g t ->
  (count (creates name) t = 0%nat)
  \/ (count (creates name) t = 1%nat /\ folded g = toLowerCase name
      /\ List.find (same_name g) cache = None).
Proof.
  intros Hs. destruct Hs as [p r Hf|p r Hf|e Hf]; [now left| |now left].
  unfold count. simpl.
  destruct (String.eqb_spec (toLowerCase (DetectedGame.name g))
              (toLowerCase name)) as [Heq|_]; [right|now left].
  now repeat split.
Qed.

Lemma count_creates_none name cache gs tr :
  batch_trace cache gs tr ->
  (forall g, g ∈ gs -> folded g <> toLowerCase name) ->
  count (creates name) tr = 0%nat.
Proof.
  induction 1 as [|g gs t ts Hs _ IH]; intros Hne; [reflexivity|].
  rewrite count_app, IH.
  - destruct (count_settles name _ _ _ Hs) as [->|(_ & Heq & _)]; [reflexivity|].
    exfalso. apply (Hne g); [apply list_elem_of_here|exact Heq].
  - intros g' Hg'. apply Hne. now apply list_elem_of_further.
Qed.

(** No profile is created under a name that the captured cache holds. *)
Lemma count_creates_cached name cache gs tr p :
  batch_trace cache gs tr ->
  p ∈ cache ->
  toLowerCase (GameProfile.name p) = toLowerCase name ->
  count (creates name) tr = 0%nat.
Proof.
  intros Hb Hp Hname. induction Hb as [|g gs t ts Hs _ IH]; [reflexivity|].
  rewrite count_app, IH.
  destruct (count_settles name _ _ _ Hs) as [->|(_ & Heq & Hf)]; [reflexivity|].
  exfalso. pose proof (find_none_elem _ _ p Hf Hp) as Hfalse.
  assert (same_name g p = true) as Ht; [|congruence].
  apply same_name_true. congruence.
Qed.

Lemma count_creates_le1 name cache gs tr :
  batch_trace cache gs tr ->
  NoDup (folded <$> gs) ->
  (count (creates name) tr <= 1)%nat.
Proof.
  induction 1 as [|g gs t ts Hs Hb IH]; intros Hnd;
    [unfold count; simpl; lia|].
  rewrite fmap_cons in Hnd. apply NoDup_cons in Hnd as [Hfresh Hnd].
  rewrite count_app.
  destruct (count_settles name _ _ _ Hs) as [->|(-> & Heq & _)].
  - now apply IH.
  - rewrite (count_creates_none name cache gs ts Hb); [lia|].
    intros g' Hg' Heq'. apply Hfresh. rewrite Heq, <- Heq'.
    now apply (list_elem_of_fmap_2 folded).
Qed.

Lemma count_creates_pos name (tr : list Call) :
  count (creates name) tr <> 0%nat ->
  exists n platform p,
    CCreateGameProfile n platform (Ok p) ∈ tr
    /\ toLowerCase n = toLowerCase name.
Proof.
  induction tr as [|c tr IH]; intros Hpos; [done|].
  unfold count in Hpos. simpl in Hpos.
  destruct (creates name c) eqn:Hc.
  - destruct c; try discriminate. destruct r; try discriminate.
    apply String.eqb_eq in Hc.
    do 3 eexists. split; [apply list_elem_of_here|exact Hc].
  - destruct (IH Hpos) as (n & pl & p & Hin & Hn).
    exists n, pl, p. split; [now apply list_elem_of_further|exact Hn].
Qed.

Lemma gamesToUpload_none (snap : AppState) :
  size (selectedGames snap) = 0%nat -> gamesToUpload snap = [].
Proof.
  intros Hz. apply size_empty_inv, leibniz_equiv in Hz.
  unfold gamesToUpload. rewrite Hz.
  induction (detectedGames snap) as [|g gs IH]; [reflexivity|].
  simpl. rewrite bool_decide_eq_false_2 by set_solver. exact IH.
Qed.

(** The calls of a backup and what it does to the profile cache, with or
    without a selection. *)
Lemma handleUpload_trace (snap : AppState) (σ : Sys W) :
  exists tr,
    batch_trace (gameProfiles snap) (gamesToUpload snap) tr
    /\ Forall genuine tr
    /\ calls (run (handleUpload snap) σ) = calls σ ++ tr
    /\ gameProfiles (live (run (handleUpload snap) σ))
       = gameProfiles (live σ) ++ created tr
    /\ authStatus (live (run (handleUpload snap) σ)) = authStatus (live σ).
Proof.
  destruct (decide (size (selectedGames snap) = 0%nat)) as [Hz|Hnz].
  - exists []. rewrite (gamesToUpload_none snap Hz).
    unfold run, handleUpload. rewrite Hz. simpl.
    rewrite !app_nil_r. repeat split; constructor.
  - destruct (handleUpload_spec snap σ Hnz) as (tr & H).
    exists tr. cbv zeta in H. tauto.
Qed.
End Reuse.

Section BatchOutcome.
Context {W : Type} `{B : Backend W}.

(** C1.  The backup operation, on the batch of the selected games
    [gamesToUpload snap]: the games are settled one by one and none
    stops the batch, so the calls made are those of the games in turn
    and every game of the batch had its upload requested or its profile
    creation refused; the uploads that went through and the creations
    and uploads that were refused add up to the number of games in the
    batch; and when something was selected, the two counters of the
    loop are these two numbers, which the messages the operation leaves
    report. *)
Theorem backup_outcomes_independent (snap : AppState) (σ : Sys W) :
  let batch := gamesToUpload snap in
  let σ' := run (handleUpload snap) σ in
  let tr := issued (handleUpload snap) σ in
  let successCount := count uploaded tr in
  let failCount := count failed tr in
  calls σ' = calls σ ++ tr
  /\ batch_trace (gameProfiles snap) batch tr
  /\ (forall g, g ∈ batch -> attempted g tr)
  /\ (successCount + failCount = length batch)%nat
  /\ (size (selectedGames snap) <> 0%nat ->
      fst (uploadLoop snap batch (0, 0)%nat
             (mkSys (with_error None (with_isUploading true (live σ)))
                (world σ) (calls σ) (console σ)))
      = (successCount, failCount)
      /\ successMessage (live σ')
         = (if (0 <? successCount)%nat
            then Some (backed_up_message successCount)
            else successMessage (live σ))
      /\ error (live σ')
         = (if (0 <? failCount)%nat
            then Some (failed_message failCount)
            else None)).
Proof.
  cbv zeta.
  destruct (decide (size (selectedGames snap) = 0%nat)) as [Hz|Hnz].
  - assert (run (handleUpload snap) σ
            = mkSys (with_error
                       (Some "Please select at least one game to backup")
                       (live σ)) (world σ) (calls σ) (console σ)) as Hrun.
    { unfold run, handleUpload. now rewrite Hz. }
    assert (issued (handleUpload snap) σ = []) as ->.
    { apply issued_spec. fold (run (handleUpload snap) σ). rewrite Hrun.
      simpl. now rewrite app_nil_r. }
    rewrite Hrun, (gamesToUpload_none snap Hz). simpl.
    rewrite app_nil_r. split; [reflexivity|]. split; [constructor|].
    split; [intros g Hg; now apply elem_of_nil in Hg|].
    split; [reflexivity|]. intros Hne. contradiction.
  - destruct (uploadLoop_spec snap (gamesToUpload snap) (0, 0)%nat
                (mkSys (with_error None (with_isUploading true (live σ)))
                       (world σ) (calls σ) (console σ)))
      as (tr & w' & o' & Hrun & Hbatch & _).
    assert (calls (run (handleUpload snap) σ) = calls σ ++ tr
            /\ successMessage (live (run (handleUpload snap) σ))
               = (if (0 <? count uploaded tr)%nat
                  then Some (backed_up_message (count uploaded tr))
                  else successMessage (live σ))
            /\ error (live (run (handleUpload snap) σ))
               = (if (0 <? count failed tr)%nat
                  then Some (failed_message (count failed tr))
                  else None)) as (Hcalls & Hsucc & Herr).
    { unfold run, handleUpload.
      destruct (Nat.eqb_spec (size (selectedGames snap)) 0) as [?|_]; [done|].
      unfold bind, update.
      cbn beta iota zeta delta [fst snd live world calls console].
      rewrite Hrun. unfold when, ret.
      destruct (0 <? count uploaded tr)%nat eqn:Hs,
               (0 <? count failed tr)%nat eqn:Hf;
        simpl; rewrite ?Hs, ?Hf; simpl; repeat split; done. }
    assert (issued (handleUpload snap) σ = tr) as ->.
    { apply issued_spec. exact Hcalls. }
    split; [exact Hcalls|]. split; [exact Hbatch|].
    split; [now apply batch_trace_attempted with (cache := gameProfiles snap)|].
    split; [now apply batch_trace_counts with (cache := gameProfiles snap)|].
    intros _. split; [now rewrite Hrun|]. split; [exact Hsucc|exact Herr].
Qed.
End BatchOutcome.

Section TwoBackups.
Context {W : Type} `{B : Backend W}.

(** Two backups, the second one starting from the profile cache the
    first one left (whatever was scanned or selected in between), on a
    backend whose created profiles carry the requested name, each over
    games with pairwise distinct names up to letter case.  Over both
    runs at most one profile is created for any name; and for a game
    whose upload the first run requested under some profile id, the
    second run requests no creation for that name and requests the
    upload of a selected game of that name under that same id and under
    no other. *)
Lemma second_backup_reuses_profile (σ1 σ2 : Sys W) :
  keeps_names ->
  gameProfiles (live σ2) = gameProfiles (live (dispatch AUpload σ1)) ->
  NoDup (folded <$> gamesToUpload (live σ1)) ->
  NoDup (folded <$> gamesToUpload (live σ2)) ->
  let tr1 := issued (handleUpload (live σ1)) σ1 in
  let tr2 := issued (handleUpload (live σ2)) σ2 in
  (forall name, (count (creates name) (tr1 ++ tr2) <= 1)%nat)
  /\ (forall g gameProfileId r,
        CUploadSaves [g] gameProfileId r ∈ tr1 ->
        (forall platform r',
           CCreateGameProfile (DetectedGame.name g) platform r' ∉ tr2)
        /\ (forall g', DetectedGame.name g' = DetectedGame.name g ->
              (g' ∈ gamesToUpload (live σ2) ->
               exists r', CUploadSaves [g'] gameProfileId r' ∈ tr2)
              /\ (forall i' r',
                    CUploadSaves [g'] i' r' ∈ tr2 -> i' = gameProfileId))).
Proof.
  intros Hk Hcache Hnd1 Hnd2.
  destruct (handleUpload_trace (live σ1) σ1)
    as (tr1 & Hb1 & Hg1 & Hc1 & Hp1 & _).
  destruct (handleUpload_trace (live σ2) σ2)
    as (tr2 & Hb2 & Hg2 & Hc2 & _).
  rewrite (issued_spec (handleUpload (live σ1)) σ1 tr1 Hc1).
  rewrite (issued_spec (handleUpload (live σ2)) σ2 tr2 Hc2).
  cbv zeta. unfold dispatch in Hcache. simpl in Hcache.
  fold (run (handleUpload (live σ1)) σ1) in Hcache.
  rewrite Hp1 in Hcache. rewrite Hcache in Hb2. clear Hcache Hc1 Hc2 Hp1.
  set (cache1 := gameProfiles (live σ1)) in *.
  split.
  - intros name. rewrite count_app.
    pose proof (count_creates_le1 name _ _ _ Hb1 Hnd1) as Hle1.
    pose proof (count_creates_le1 name _ _ _ Hb2 Hnd2) as Hle2.
    destruct (decide (count (creates name) tr1 = 0%nat)) as [Hz|Hnz]; [lia|].
    destruct (count_creates_pos name tr1 Hnz) as (n & pl & p & Hin & Hn).
    rewrite (count_creates_cached name _ _ _ p Hb2); [lia| |].
    + apply elem_of_app. right. apply elem_of_created. eauto.
    + rewrite <- Hn. exact (genuine_name _ _ _ _ Hk Hg1 Hin).
  - intros g i r Hup.
    assert (exists p, List.find (same_name g) (cache1 ++ created tr1) = Some p
                      /\ i = GameProfile.id p) as (p & Hfind & ->).
    { destruct (batch_trace_upload _ _ _ _ _ _ Hb1 Hup)
        as (g0 & _ & Heq & Hcase).
      injection Heq as <-. rewrite find_app.
      destruct Hcase as [(p & Hf & Hid)|(Hf & p & Hcr & Hid)];
        exists p; rewrite Hf; (split; [|exact Hid]); [reflexivity|].
      now apply (find_created cache1 (gamesToUpload (live σ1))). }
    split.
    + intros pl r' Hcr.
      destruct (batch_trace_create _ _ _ _ _ _ Hb2 Hcr) as (g' & _ & Hn & _ & Hnone).
      rewrite (find_same_name_folded g' g) in Hnone; [congruence|].
      unfold folded. now rewrite Hn.
    + intros g' Hn.
      assert (List.find (same_name g') (cache1 ++ created tr1) = Some p) as Hf'.
      { rewrite (find_same_name_folded g' g); [exact Hfind|].
        unfold folded. now rewrite Hn. }
      split.
      * intros Hin. exact (batch_trace_found _ _ _ _ _ Hb2 Hin Hf').
      * intros i' r' Hup'.
        destruct (batch_trace_upload _ _ _ _ _ _ Hb2 Hup')
          as (g0 & _ & Heq & Hcase).
        injection Heq as <-.
        destruct Hcase as [(p' & Hf & Hid)|(Hf & _)]; congruence.
Qed.
End TwoBackups.

(** ** The batch and the selection *)

Lemma filter_selected_ext (sel sel' : gset string) (l : list DetectedGame.t) :
  (forall g, g ∈ l ->
     (DetectedGame.name g ∈ sel <-> DetectedGame.name g ∈ sel')) ->
  List.filter (fun g => bool_decide (DetectedGame.name g ∈ sel)) l
  = List.filter (fun g => bool_decide (DetectedGame.name g ∈ sel')) l.
Proof.
  induction l as [|g l IH]; intros Hext; [reflexivity|]. simpl.
  rewrite IH by (intros g' Hg'; apply Hext; now apply list_elem_of_further).
  rewrite (bool_decide_ext _ _ (Hext g (list_elem_of_here _ _))).
  reflexivity.
Qed.

Lemma filter_selected_length (l : list DetectedGame.t) :
  forall sel : gset string,
  NoDup (DetectedGame.name <$> l) ->
  (forall x, x ∈ sel -> x ∈ DetectedGame.name <$> l) ->
  length (List.filter (fun g => bool_decide (DetectedGame.name g ∈ sel)) l)
  = size sel.
Proof.
  induction l as [|g l IH]; intros sel Hnd Hsub.
  - assert (sel = ∅) as ->; [|now rewrite size_empty].
    apply set_eq. intros x. split; [|set_solver].
    intros Hx. apply Hsub in Hx. now apply elem_of_nil in Hx.
  - rewrite fmap_cons in Hnd, Hsub. apply NoDup_cons in Hnd as [Hfresh Hnd].
    simpl. destruct (decide (DetectedGame.name g ∈ sel)) as [Hin|Hout].
    + rewrite (bool_decide_eq_true_2 _ Hin). simpl.
      rewrite (filter_selected_ext sel (sel ∖ {[DetectedGame.name g]})).
      * rewrite IH; [|exact Hnd|].
        -- rewrite size_difference by set_solver.
           rewrite size_singleton.
           assert (size sel <> 0%nat); [|lia].
           intros Hz. apply size_empty_inv in Hz. set_solver.
        -- intros x Hx. apply elem_of_difference in Hx as [Hx Hne].
           apply Hsub in Hx. apply elem_of_cons in Hx as [->|Hx]; [|exact Hx].
           set_solver.
      * intros g' Hg'. split; [|set_solver].
        intros Hsel. apply elem_of_difference. split; [exact Hsel|].
        intros Heq. apply elem_of_singleton in Heq. apply Hfresh.
        rewrite <- Heq. now apply (list_elem_of_fmap_2 DetectedGame.name).
    + rewrite (bool_decide_eq_false_2 _ Hout). apply IH; [exact Hnd|].
      intros x Hx. pose proof (Hsub x Hx) as Hx'.
      apply elem_of_cons in Hx' as [->|Hx']; [done|exact Hx'].
Qed.

(** With the detected games named apart and every selected name among
    them, the batch has as many games as the selection has names. *)
Lemma gamesToUpload_length (snap : AppState) :
  NoDup (DetectedGame.name <$> detectedGames snap) ->
  (forall x, x ∈ selectedGames snap ->
             x ∈ DetectedGame.name <$> detectedGames snap) ->
  length (gamesToUpload snap) = size (selectedGames snap).
Proof. apply filter_selected_length. Qed.

(** ** The writers of the profile cache *)

Section Session.
Context {W : Type} `{B : Backend W}.

(** Where a session starts: the profiles the backend lists become the
    cache; a refused listing leaves the cache as it is. *)
Lemma loadGameProfiles_cache (σ : Sys W) :
  gameProfiles (live (run loadGameProfiles σ))
  = match fst (get_game_profiles (world σ)) with
    | Ok profiles => profiles
    | Err _ => gameProfiles (live σ)
    end.
Proof.
  unfold run, loadGameProfiles, bind, invoke, update, console_error.
  destruct (get_game_profiles (world σ)) as [[ps|e] w']; reflexivity.
Qed.

(** Where a session ends: a logout that goes through empties the cache
    and signs the component out; a refused one changes neither. *)
Lemma handleLogout_cache (σ : Sys W) :
  match fst (logout (world σ)) with
  | Ok _ =>
      gameProfiles (live (run handleLogout σ)) = []
      /\ authenticated (live (run handleLogout σ)) = false
  | Err _ =>
      gameProfiles (live (run handleLogout σ)) = gameProfiles (live σ)
      /\ authenticated (live (run handleLogout σ)) = authenticated (live σ)
  end.
Proof.
  unfold run, handleLogout, bind, invoke, update.
  destruct (logout (world σ)) as [[u|e] w']; simpl; split; reflexivity.
Qed.

(** A scan replaces the detected games by what the backend found and
    touches neither the profile cache nor the selection. *)
Lemma handleScan_spec (σ : Sys W) :
  let r := fst (scan_games (world σ)) in
  calls (snd (handleScan σ)) = calls σ ++ [CScanGames r]
  /\ gameProfiles (live (snd (handleScan σ))) = gameProfiles (live σ)
  /\ selectedGames (live (snd (handleScan σ))) = selectedGames (live σ)
  /\ authStatus (live (snd (handleScan σ))) = authStatus (live σ)
  /\ detectedGames (live (snd (handleScan σ)))
     = match r with
       | Ok gs => gs
       | Err _ => detectedGames (live σ)
       end.
Proof.
  unfold handleScan, bind, invoke, update, when, ret.
  cbn beta iota zeta delta [fst snd live world calls console].
  destruct (scan_games (world σ)) as [[gs|e] w']; [|now repeat split].
  cbn beta iota zeta delta [fst snd live world calls console].
  destruct (0 <? length gs)%nat; now repeat split.
Qed.
End Session.

(** ** The profile cache between the awaits *)

Section Interleaving.
Context {W : Type} `{B : Backend W}.

Lemma nextGame_live (snap : AppState) (games : list DetectedGame.t)
    (cnt : nat * nat) (σ : Sys W) :
  gameProfiles (live (snd (nextGame snap games cnt σ))) = gameProfiles (live σ)
  /\ authStatus (live (snd (nextGame snap games cnt σ))) = authStatus (live σ).
Proof.
  unfold nextGame, finishUpload, bind, update, when, ret.
  destruct games as [|g rest].
  - destruct (0 <? fst cnt)%nat, (0 <? snd cnt)%nat; split; reflexivity.
  - destruct (List.find _ _); split; reflexivity.
Qed.

(** Up to its first [await] no handler writes the profile cache. *)
Lemma begin_cache (snap : AppState) (a : Action) (σ : Sys W) :
  gameProfiles (live (snd (begin snap a σ))) = gameProfiles (live σ).
Proof.
  destruct a; try reflexivity; unfold begin.
  - destruct (String.eqb _ _); [reflexivity|].
    destruct (String.eqb _ _); reflexivity.
  - destruct (size (selectedGames snap) =? 0)%nat; [reflexivity|].
    unfold bind, update. cbn beta iota zeta delta [fst snd].
    now rewrite (proj1 (nextGame_live _ _ _ _)).
Qed.

(** The backend answers without touching the state of the component. *)
Lemma serve_live (t : Task) (m : M W Task) (σ : Sys W) :
  serve t = Some m -> live (snd (m σ)) = live σ.
Proof.
  destruct t as [r|r|? ? r|r|r|? ? ? ? r|? ? ? ? ? r|]; try discriminate;
    destruct r; try discriminate; intros [= <-];
    unfold bind, invoke, ret;
    match goal with |- context [?cmd (world σ)] => destruct (cmd (world σ)) end;
    reflexivity.
Qed.

(** C7, as the code has it.  A step after which the user is signed in
    changes the profile cache in two cases only: the answer to a
    profile creation of the backup arrives with a new profile, which is
    appended; the answer to a listing of the profiles, requested
    without [await] at mount or at sign-in, arrives with a list, which
    replaces the cache whatever it held.  Every other such step (an
    action, an answer of the backend not yet delivered, any other
    delivery, a timer) leaves the cache as it is. *)
Theorem cache_appended_or_reloaded (l : Label) (c c' : Config W) :
  step l c = Some c' ->
  authenticated (live (sys c')) = true ->
  gameProfiles (live (sys c'))
  = match l with
    | LDeliver i =>
        match tasks c !! i with
        | Some (TGameProfiles (Some (Ok profiles))) => profiles
        | Some (TCreate _ _ _ _ (Some (Ok newProfile))) =>
            gameProfiles (live (sys c)) ++ [newProfile]
        | _ => gameProfiles (live (sys c))
        end
    | _ => gameProfiles (live (sys c))
    end.
Proof.
  intros Hstep Hauth. destruct l as [a|i|i]; unfold step in Hstep.
  - destruct (enabled (live (sys c)) a); [|discriminate].
    pose proof (begin_cache (live (sys c)) a (sys c)) as Hb.
    destruct (begin (live (sys c)) a (sys c)) as [started σ].
    injection Hstep as <-. exact Hb.
  - destruct (tasks c !! i) as [t|]; [|discriminate].
    destruct (serve t) as [m|] eqn:Hs; [|discriminate].
    pose proof (serve_live t m (sys c) Hs) as Hl.
    destruct (m (sys c)) as [t' σ]. injection Hstep as <-.
    simpl in *. now rewrite Hl.
  - destruct (tasks c !! i) as [t|]; [|discriminate].
    destruct t as [r|r|? ? r|r|r|snap g rest cnt r|snap g p rest cnt r|];
      try destruct r as [[x|e]|]; try discriminate;
      simpl in Hstep; unfold bind, update, console_error, ret in Hstep;
      cbn beta iota zeta delta [fst snd] in Hstep;
      try (injection Hstep as <-; reflexivity).
    + (* the login went through *)
      destruct (AuthStatus.is_authenticated x);
        injection Hstep as <-; reflexivity.
    + (* the logout went through *)
      injection Hstep as <-. discriminate.
    + (* the scan went through *)
      destruct (0 <? length x)%nat; injection Hstep as <-; reflexivity.
    + (* a creation was refused *)
      pose proof (nextGame_live snap rest (fst cnt, S (snd cnt))
                    (mkSys (live (sys c)) (world (sys c)) (calls (sys c))
                       (console (sys c)
                        ++ ["Failed to create profile for "
                            +:+ DetectedGame.name g +:+ ": " +:+ e])))
        as [Hn _].
      destruct (nextGame _ _ _ _) as [started σ].
      injection Hstep as <-. exact Hn.
    + (* an upload went through *)
      pose proof (nextGame_live snap rest (S (fst cnt), snd cnt) (sys c))
        as [Hn _].
      destruct (nextGame _ _ _ _) as [started σ].
      injection Hstep as <-. exact Hn.
    + (* an upload was refused *)
      pose proof (nextGame_live snap rest (fst cnt, S (snd cnt))
                    (mkSys (live (sys c)) (world (sys c)) (calls (sys c))
                       (console (sys c)
                        ++ ["Failed to upload " +:+ DetectedGame.name g
                            +:+ ": " +:+ e])))
        as [Hn _].
      destruct (nextGame _ _ _ _) as [started σ].
      injection Hstep as <-. exact Hn.
Qed.
End Interleaving.

(** ** An action followed to its end is one of the schedules *)

Section Schedules.
Context {W : Type} `{B : Backend W}.

Lemma exec_app (ls1 ls2 : list Label) (c : Config W) :
  exec (ls1 ++ ls2) c
  = match exec ls1 c with
    | Some c' => exec ls2 c'
    | None => None
    end.
Proof.
  revert c. induction ls1 as [|l ls1 IH]; intros c; simpl; [reflexivity|].
  destruct (step l c); [apply IH|reflexivity].
Qed.

Lemma step_serve (pre post : list Task) (t t' : Task) (m : M W Task)
    (σ σ' : Sys W) :
  serve t = Some m -> m σ = (t', σ') ->
  step (LServe (length pre)) (mkConfig σ (pre ++ t :: post))
  = Some (mkConfig σ' (pre ++ t' :: post)).
Proof.
  intros Hs Hm. unfold step. cbn [tasks sys].
  rewrite list_lookup_middle by reflexivity. rewrite Hs, Hm.
  do 2 f_equal.
  rewrite <- (Nat.add_0_r (length pre)). now rewrite insert_app_r.
Qed.

Lemma step_deliver (pre post started : list Task) (t : Task)
    (m : M W (list Task)) (σ σ' : Sys W) :
  resume t = Some m -> m σ = (started, σ') ->
  step (LDeliver (length pre)) (mkConfig σ (pre ++ t :: post))
  = Some (mkConfig σ' (pre ++ post ++ started)).
Proof.
  intros Hr Hm. unfold step. cbn [tasks sys].
  rewrite list_lookup_middle by reflexivity. rewrite Hr, Hm.
  do 2 f_equal. now rewrite delete_middle, app_assoc.
Qed.

(** The request of a task is answered and the answer arrives at once. *)
Lemma exec_answer (pre post started : list Task) (t t' : Task)
    (ms : M W Task) (md : M W (list Task)) (σ σ1 σ2 : Sys W) :
  serve t = Some ms -> ms σ = (t', σ1) ->
  resume t' = Some md -> md σ1 = (started, σ2) ->
  exec [LServe (length pre); LDeliver (length pre)]
    (mkConfig σ (pre ++ t :: post))
  = Some (mkConfig σ2 (pre ++ post ++ started)).
Proof.
  intros Hs Hms Hr Hmd. cbn [exec].
  rewrite (step_serve pre post t t' ms σ σ1 Hs Hms).
  now rewrite (step_deliver pre post started t' md σ1 σ2 Hr Hmd).
Qed.

Lemma bind_step {A C D} (m : M W A) (f : A -> M W C) (k : C -> M W D)
    (σ σ' : Sys W) (a : A) :
  m σ = (a, σ') -> bind (bind m f) k σ = bind (f a) k σ'.
Proof. intros H. unfold bind. now rewrite H. Qed.

Lemma finishUpload_timers (cnt : nat * nat) (σ : Sys W) :
  Forall (eq TClearMessage) (fst (finishUpload cnt σ)).
Proof.
  unfold finishUpload, bind, update, when, ret.
  destruct (0 <? fst cnt)%nat, (0 <? snd cnt)%nat; simpl;
    repeat constructor.
Qed.

(** The loop of [handleUpload] with every answer arriving at once. *)
Lemma nextGame_schedule (snap : AppState) (games : list DetectedGame.t) :
  forall (cnt : nat * nat) (σ : Sys W) (pre : list Task),
  exists ls,
    exec ls (mkConfig (snd (nextGame snap games cnt σ))
               (pre ++ fst (nextGame snap games cnt σ)))
    = Some (mkConfig
              (snd (bind (uploadLoop snap games cnt) finishUpload σ))
              (pre ++ fst (bind (uploadLoop snap games cnt) finishUpload σ)))
    /\ Forall follow_up ls.
Proof.
  induction games as [|g rest IH]; intros cnt σ pre.
  - exists []. split; [reflexivity|constructor].
  - assert (forall p cnt0 (σ0 : Sys W),
              exists ls,
                exec ls (mkConfig σ0 (pre ++ [TUpload snap g p rest cnt0 None]))
                = Some (mkConfig
                          (snd (bind (bind (uploadGame g p cnt0)
                                        (uploadLoop snap rest))
                                  finishUpload σ0))
                          (pre ++ fst (bind (bind (uploadGame g p cnt0)
                                               (uploadLoop snap rest))
                                         finishUpload σ0)))
                /\ Forall follow_up ls) as Hupload.
    { intros p cnt0 σ0.
      destruct (upload_saves [g] (GameProfile.id p) (world σ0))
        as [[u|e] w1] eqn:Hcall.
      - destruct (IH (S (fst cnt0), snd cnt0)
                    (mkSys (live σ0) w1
                       (calls σ0 ++ [CUploadSaves [g] (GameProfile.id p) (Ok u)])
                       (console σ0)) pre) as (ls & Hls & Hsil).
        exists ([LServe (length pre); LDeliver (length pre)] ++ ls).
        split; [|repeat constructor; exact Hsil].
        rewrite exec_app.
        erewrite (exec_answer pre []).
        2: reflexivity.
        2:{ unfold bind, invoke, ret. rewrite Hcall. reflexivity. }
        2: reflexivity.
        2: apply surjective_pairing.
        simpl app. rewrite Hls.
        erewrite bind_step; [reflexivity|].
        unfold uploadGame, bind, invoke, ret. now rewrite Hcall.
      - destruct (IH (fst cnt0, S (snd cnt0))
                    (mkSys (live σ0) w1
                       (calls σ0 ++ [CUploadSaves [g] (GameProfile.id p) (Err e)])
                       (console σ0
                        ++ ["Failed to upload " +:+ DetectedGame.name g
                            +:+ ": " +:+ e])) pre) as (ls & Hls & Hsil).
        exists ([LServe (length pre); LDeliver (length pre)] ++ ls).
        split; [|repeat constructor; exact Hsil].
        rewrite exec_app.
        erewrite (exec_answer pre []).
        2: reflexivity.
        2:{ unfold bind, invoke, ret. rewrite Hcall. reflexivity. }
        2: reflexivity.
        2:{ unfold bind, console_error.
            cbn beta iota zeta delta [live world calls console].
            apply surjective_pairing. }
        simpl app. rewrite Hls.
        erewrite bind_step; [reflexivity|].
        unfold uploadGame, bind, invoke, console_error, ret. now rewrite Hcall. }
    cbn [nextGame uploadLoop].
    destruct (List.find (same_name g) (gameProfiles snap)) as [p|] eqn:Hfind.
    + (* a cached profile *)
      destruct (Hupload p cnt σ) as (ls & Hls & Hsil).
      exists ls. split; [|exact Hsil].
      cbn [fst snd ret]. rewrite Hls.
      unfold processGame. now rewrite Hfind.
    + destruct (create_game_profile (DetectedGame.name g) "PC" (world σ))
        as [[p|e] w1] eqn:Hcall.
      * (* the creation goes through *)
        destruct (Hupload p cnt
                    (mkSys (with_gameProfiles (gameProfiles (live σ) ++ [p])
                              (live σ)) w1
                       (calls σ ++ [CCreateGameProfile (DetectedGame.name g)
                                      "PC" (Ok p)])
                       (console σ))) as (ls & Hls & Hsil).
        exists ([LServe (length pre); LDeliver (length pre)] ++ ls).
        split; [|repeat constructor; exact Hsil].
        rewrite exec_app. cbn [fst snd ret].
        erewrite (exec_answer pre []).
        2: reflexivity.
        2:{ unfold bind, invoke, ret. rewrite Hcall. reflexivity. }
        2: reflexivity.
        2:{ unfold bind, update, ret.
            cbn beta iota zeta delta [live world calls console].
            reflexivity. }
        simpl app. rewrite Hls.
        unfold processGame. rewrite Hfind.
        unfold bind, invoke, update. rewrite Hcall. reflexivity.
      * (* the creation is refused *)
        destruct (IH (fst cnt, S (snd cnt))
                    (mkSys (live σ) w1
                       (calls σ ++ [CCreateGameProfile (DetectedGame.name g)
                                      "PC" (Err e)])
                       (console σ
                        ++ ["Failed to create profile for "
                            +:+ DetectedGame.name g +:+ ": " +:+ e])) pre)
          as (ls & Hls & Hsil).
        exists ([LServe (length pre); LDeliver (length pre)] ++ ls).
        split; [|repeat constructor; exact Hsil].
        rewrite exec_app. cbn [fst snd ret].
        erewrite (exec_answer pre []).
        2: reflexivity.
        2:{ unfold bind, invoke, ret. rewrite Hcall. reflexivity. }
        2: reflexivity.
        2:{ unfold bind, console_error.
            cbn beta iota zeta delta [live world calls console].
            apply surjective_pairing. }
        simpl app. rewrite Hls.
        erewrite bind_step; [reflexivity|].
        unfold processGame. rewrite Hfind.
        unfold bind, invoke, console_error, ret. now rewrite Hcall.
Qed.

Lemma exec_cons (l : Label) (ls : list Label) (c : Config W) :
  exec (l :: ls) c
  = match step l c with
    | Some c' => exec ls c'
    | None => None
    end.
Proof. reflexivity. Qed.

Lemma step_act (a : Action) (σ : Sys W) (pre : list Task) :
  enabled (live σ) a = true ->
  step (LAct a) (mkConfig σ pre)
  = Some (mkConfig (snd (begin (live σ) a σ))
            (pre ++ fst (begin (live σ) a σ))).
Proof.
  intros Hen. unfold step. cbn [sys tasks]. rewrite Hen.
  now destruct (begin (live σ) a σ).
Qed.

(** [handleUpload] past its guard is the loop followed by what comes
    after it. *)
Lemma handleUpload_finish (snap : AppState) (σ : Sys W) :
  (size (selectedGames snap) =? 0)%nat = false ->
  snd (handleUpload snap σ)
  = snd (bind (uploadLoop snap (gamesToUpload snap) (0, 0)%nat) finishUpload
           (mkSys (with_error None (with_isUploading true (live σ)))
              (world σ) (calls σ) (console σ))).
Proof.
  intros Hsel. unfold handleUpload. rewrite Hsel.
  unfold finishUpload, bind, update, when, ret.
  cbn beta iota zeta delta [fst snd live world calls console].
  destruct (uploadLoop snap (gamesToUpload snap) (0, 0)%nat _) as [cnt σ'].
  destruct (0 <? fst cnt)%nat, (0 <? snd cnt)%nat; reflexivity.
Qed.

(** X24.  Every action that the render offers, followed to its end: in
    the schedule where, after the action, each request is answered and
    each answer arrives before anything else happens, the component
    ends in the state [dispatch] gives, with nothing more pending than
    before but the timers that clear the success message. *)
Theorem dispatch_schedule (a : Action) (c : Config W) :
  enabled (live (sys c)) a = true ->
  exists ls timers,
    exec (LAct a :: ls) c
    = Some (mkConfig (dispatch a (sys c)) (tasks c ++ timers))
    /\ Forall follow_up ls
    /\ Forall (eq TClearMessage) timers.
Proof.
  destruct c as [σ pre]. cbn [sys tasks]. intros Hen.
  assert (forall started σ',
            begin (live σ) a σ = (started, σ') ->
            started = [] -> σ' = dispatch a σ ->
            exists ls timers,
              exec (LAct a :: ls) (mkConfig σ pre)
              = Some (mkConfig (dispatch a σ) (pre ++ timers))
              /\ Forall follow_up ls /\ Forall (eq TClearMessage) timers)
    as Hsync.
  { intros started σ' Hb -> ->. exists [], [].
    split; [|split; constructor].
    rewrite exec_cons, (step_act a σ pre Hen), Hb. reflexivity. }
  destruct a;
    try (match goal with
         | |- context [dispatch ?a σ] =>
             apply (Hsync [] (dispatch a σ)); reflexivity
         end).
  - (* ALogin *)
    destruct (String.eqb (trim (sessionCookie (live σ))) "") eqn:Hc.
    { apply (Hsync [] (mkSys (with_error
                                (Some "Please enter your session cookie")
                                (live σ)) (world σ) (calls σ) (console σ)));
        [unfold begin; now rewrite Hc | reflexivity
        |unfold dispatch, handler, handleLogin; now rewrite Hc]. }
    destruct (String.eqb (trim (deviceName (live σ))) "") eqn:Hd.
    { apply (Hsync [] (mkSys (with_error (Some "Please enter a device name")
                                (live σ)) (world σ) (calls σ) (console σ)));
        [unfold begin; now rewrite Hc, Hd | reflexivity
        |unfold dispatch, handler, handleLogin; now rewrite Hc, Hd]. }
    assert (exec [LAct ALogin] (mkConfig σ pre)
            = Some (mkConfig
                      (mkSys (with_error None (with_isLoggingIn true (live σ)))
                         (world σ) (calls σ) (console σ))
                      (pre ++ [TLogin (trim (sessionCookie (live σ)))
                                 (trim (deviceName (live σ))) None])))
      as Hbegin.
    { rewrite exec_cons, (step_act _ σ pre Hen).
      unfold begin. rewrite Hc, Hd. reflexivity. }
    destruct (login (trim (sessionCookie (live σ)))
                (trim (deviceName (live σ))) (world σ))
      as [[status|e] w1] eqn:Hcall.
    + destruct (AuthStatus.is_authenticated status) eqn:Hst.
      * (* signed in: the listing is requested and answered *)
        destruct (get_game_profiles w1) as [r w2] eqn:Hlist.
        exists ([LServe (length pre); LDeliver (length pre)]
                ++ [LServe (length pre); LDeliver (length pre)]),
               [TClearMessage].
        split; [|split; repeat constructor].
        change (LAct ALogin :: ?l) with ([LAct ALogin] ++ l).
        rewrite exec_app, Hbegin, exec_app.
        erewrite (exec_answer pre []).
        2: reflexivity.
        2:{ unfold bind, invoke, ret.
            cbn beta iota zeta delta [fst snd live world calls console].
            rewrite Hcall. reflexivity. }
        2: reflexivity.
        2:{ unfold bind, update, ret. rewrite Hst.
            cbn beta iota zeta delta [fst snd live world calls console].
            reflexivity. }
        simpl app.
        erewrite (exec_answer pre [TClearMessage]).
        2: reflexivity.
        2:{ unfold bind, invoke, ret.
            cbn beta iota zeta delta [fst snd live world calls console].
            rewrite Hlist. reflexivity. }
        2: reflexivity.
        2: apply surjective_pairing.
        unfold dispatch, handler, handleLogin. rewrite Hc, Hd.
        unfold loadGameProfiles, bind, invoke, update, when, console_error, ret.
        cbn beta iota zeta delta [fst snd live world calls console].
        rewrite Hcall.
        cbn beta iota zeta delta [fst snd live world calls console].
        rewrite Hst.
        cbn beta iota zeta delta [fst snd live world calls console].
        rewrite Hlist.
        destruct r as [ps|e];
          cbn beta iota zeta delta [fst snd live world calls console];
          rewrite <- ?app_assoc; reflexivity.
      * exists [LServe (length pre); LDeliver (length pre)], [].
        split; [|split; repeat constructor].
        change (LAct ALogin :: ?l) with ([LAct ALogin] ++ l).
        rewrite exec_app, Hbegin.
        erewrite (exec_answer pre []).
        2: reflexivity.
        2:{ unfold bind, invoke, ret.
            cbn beta iota zeta delta [fst snd live world calls console].
            rewrite Hcall. reflexivity. }
        2: reflexivity.
        2:{ unfold bind, update, ret. rewrite Hst.
            cbn beta iota zeta delta [fst snd live world calls console].
            reflexivity. }
        unfold dispatch, handler, handleLogin. rewrite Hc, Hd.
        unfold loadGameProfiles, bind, invoke, update, when, console_error, ret.
        cbn beta iota zeta delta [fst snd live world calls console].
        rewrite Hcall.
        cbn beta iota zeta delta [fst snd live world calls console].
        rewrite Hst. reflexivity.
    + exists [LServe (length pre); LDeliver (length pre)], [].
      split; [|split; repeat constructor].
      change (LAct ALogin :: ?l) with ([LAct ALogin] ++ l).
      rewrite exec_app, Hbegin.
      erewrite (exec_answer pre []).
      2: reflexivity.
      2:{ unfold bind, invoke, ret.
          cbn beta iota zeta delta [fst snd live world calls console].
          rewrite Hcall. reflexivity. }
      2: reflexivity.
      2:{ unfold bind, update, ret.
          cbn beta iota zeta delta [fst snd live world calls console].
          reflexivity. }
      unfold dispatch, handler, handleLogin. rewrite Hc, Hd.
      unfold loadGameProfiles, bind, invoke, update, when, console_error, ret.
      cbn beta iota zeta delta [fst snd live world calls console].
      now rewrite Hcall.
  - (* AScan *)
    destruct (scan_games (world σ)) as [[gs|e] w1] eqn:Hcall.
    + exists [LServe (length pre); LDeliver (length pre)],
             (if (0 <? length gs)%nat then [TClearMessage] else []).
      split; [|split; [repeat constructor
                      |destruct (0 <? length gs)%nat; repeat constructor]].
      rewrite exec_cons, (step_act _ σ pre Hen).
      unfold begin, bind, update, ret.
      cbn beta iota zeta delta [fst snd live world calls console].
      erewrite (exec_answer pre []).
      2: reflexivity.
      2:{ unfold bind, invoke, ret.
          cbn beta iota zeta delta [fst snd live world calls console].
          rewrite Hcall. reflexivity. }
      2: reflexivity.
      2:{ unfold bind, update, ret.
          cbn beta iota zeta delta [fst snd live world calls console].
          apply surjective_pairing. }
      unfold dispatch, handler, handleScan, bind, invoke, update, when, ret.
      cbn beta iota zeta delta [fst snd live world calls console].
      rewrite Hcall.
      destruct (0 <? length gs)%nat; reflexivity.
    + exists [LServe (length pre); LDeliver (length pre)], [].
      split; [|split; repeat constructor].
      rewrite exec_cons, (step_act _ σ pre Hen).
      unfold begin, bind, update, ret.
      cbn beta iota zeta delta [fst snd live world calls console].
      erewrite (exec_answer pre []).
      2: reflexivity.
      2:{ unfold bind, invoke, ret.
          cbn beta iota zeta delta [fst snd live world calls console].
          rewrite Hcall. reflexivity. }
      2: reflexivity.
      2:{ unfold bind, update, ret.
          cbn beta iota zeta delta [fst snd live world calls console].
          reflexivity. }
      unfold dispatch, handler, handleScan, bind, invoke, update, when, ret.
      cbn beta iota zeta delta [fst snd live world calls console].
      now rewrite Hcall.
  - (* ATriggerScan *)
    destruct (scan_games (world σ)) as [[gs|e] w1] eqn:Hcall.
    + exists [LServe (length pre); LDeliver (length pre)],
             (if (0 <? length gs)%nat then [TClearMessage] else []).
      split; [|split; [repeat constructor
                      |destruct (0 <? length gs)%nat; repeat constructor]].
      rewrite exec_cons, (step_act _ σ pre Hen).
      unfold begin, bind, update, ret.
      cbn beta iota zeta delta [fst snd live world calls console].
      erewrite (exec_answer pre []).
      2: reflexivity.
      2:{ unfold bind, invoke, ret.
          cbn beta iota zeta delta [fst snd live world calls console].
          rewrite Hcall. reflexivity. }
      2: reflexivity.
      2:{ unfold bind, update, ret.
          cbn beta iota zeta delta [fst snd live world calls console].
          apply surjective_pairing. }
      unfold dispatch, handler, handleScan, bind, invoke, update, when, ret.
      cbn beta iota zeta delta [fst snd live world calls console].
      rewrite Hcall.
      destruct (0 <? length gs)%nat; reflexivity.
    + exists [LServe (length pre); LDeliver (length pre)], [].
      split; [|split; repeat constructor].
      rewrite exec_cons, (step_act _ σ pre Hen).
      unfold begin, bind, update, ret.
      cbn beta iota zeta delta [fst snd live world calls console].
      erewrite (exec_answer pre []).
      2: reflexivity.
      2:{ unfold bind, invoke, ret.
          cbn beta iota zeta delta [fst snd live world calls console].
          rewrite Hcall. reflexivity. }
      2: reflexivity.
      2:{ unfold bind, update, ret.
          cbn beta iota zeta delta [fst snd live world calls console].
          reflexivity. }
      unfold dispatch, handler, handleScan, bind, invoke, update, when, ret.
      cbn beta iota zeta delta [fst snd live world calls console].
      now rewrite Hcall.
  - (* AUpload *)
    destruct (size (selectedGames (live σ)) =? 0)%nat eqn:Hsel.
    { apply (Hsync [] (mkSys (with_error
                                (Some "Please select at least one game to backup")
                                (live σ)) (world σ) (calls σ) (console σ)));
        [unfold begin; now rewrite Hsel | reflexivity
        |unfold dispatch, handler, handleUpload; now rewrite Hsel]. }
    destruct (nextGame_schedule (live σ) (gamesToUpload (live σ)) (0, 0)%nat
                (mkSys (with_error None (with_isUploading true (live σ)))
                   (world σ) (calls σ) (console σ)) pre)
      as (ls & Hls & Hsil).
    eexists ls, _. split; [|split; [exact Hsil|]].
    + rewrite exec_cons, (step_act _ σ pre Hen).
      unfold begin. rewrite Hsel.
      unfold bind at 1 2, update.
      cbn beta iota zeta delta [fst snd live world calls console].
      unfold bind at 1 2, update.
      cbn beta iota zeta delta [fst snd live world calls console].
      rewrite Hls. unfold dispatch, handler.
      rewrite (handleUpload_finish (live σ) σ Hsel). reflexivity.
    + unfold bind.
      destruct (uploadLoop _ _ _ _) as [cnt σ'].
      apply finishUpload_timers.
  - (* ALogout *)
    destruct (logout (world σ)) as [[u|e] w1] eqn:Hcall;
      (exists [LServe (length pre); LDeliver (length pre)], [];
       split; [|split; repeat constructor];
       rewrite exec_cons, (step_act _ σ pre Hen);
       unfold begin, ret; cbn beta iota zeta delta [fst snd];
       erewrite (exec_answer pre []);
       [ | reflexivity
         | unfold bind, invoke, ret; rewrite Hcall; reflexivity
         | reflexivity
         | unfold bind, update, ret;
           cbn beta iota zeta delta [fst snd live world calls console];
           reflexivity ];
       unfold dispatch, handler, handleLogout, bind, invoke, update;
       now rewrite Hcall).
Qed.

Lemma exec_answer_first (post started : list Task) (t t' : Task)
    (ms : M W Task) (md : M W (list Task)) (σ σ1 σ2 : Sys W) :
  serve t = Some ms -> ms σ = (t', σ1) ->
  resume t' = Some md -> md σ1 = (started, σ2) ->
  exec [LServe 0; LDeliver 0] (mkConfig σ (t :: post))
  = Some (mkConfig σ2 (post ++ started)).
Proof. apply (exec_answer [] post). Qed.

(** X25.  The effect of the first render followed to its end: with
    the status check, and the listing of the profiles it asks for when
    the user is signed in, answered at once, the component is in the
    state [onMount] gives and nothing is pending. *)
Theorem onMount_schedule (userAgent : string) (σ : Sys W) :
  exists ls,
    exec ls (mkConfig (snd (mount userAgent σ)) (fst (mount userAgent σ)))
    = Some (mkConfig (run (onMount userAgent) σ) [])
    /\ Forall follow_up ls.
Proof.
  unfold mount, bind, update, ret.
  cbn beta iota zeta delta [fst snd live world calls console].
  destruct (get_auth_status (world σ)) as [[status|e] w1] eqn:Hcall.
  - destruct (AuthStatus.is_authenticated status) eqn:Hst.
    + destruct (get_game_profiles w1) as [r w2] eqn:Hlist.
      exists ([LServe 0; LDeliver 0] ++ [LServe 0; LDeliver 0]).
      split; [|repeat constructor].
      rewrite exec_app.
      erewrite (exec_answer_first []).
      2: reflexivity.
      2:{ unfold bind, invoke, ret.
          cbn beta iota zeta delta [fst snd live world calls console].
          rewrite Hcall. reflexivity. }
      2: reflexivity.
      2:{ unfold bind, update, ret. rewrite Hst.
          cbn beta iota zeta delta [fst snd live world calls console].
          reflexivity. }
      simpl app.
      erewrite (exec_answer_first []).
      2: reflexivity.
      2:{ unfold bind, invoke, ret.
          cbn beta iota zeta delta [fst snd live world calls console].
          rewrite Hlist. reflexivity. }
      2: reflexivity.
      2: apply surjective_pairing.
      unfold run, onMount, checkAuth, loadGameProfiles, bind, invoke, update,
        when, console_error, ret.
      cbn beta iota zeta delta [fst snd live world calls console].
      rewrite Hcall.
      cbn beta iota zeta delta [fst snd live world calls console].
      rewrite Hst.
      cbn beta iota zeta delta [fst snd live world calls console].
      rewrite Hlist.
      destruct r as [ps|e];
        cbn beta iota zeta delta [fst snd live world calls console];
        rewrite <- ?app_assoc; reflexivity.
    + exists [LServe 0; LDeliver 0]. split; [|repeat constructor].
      erewrite (exec_answer_first []).
      2: reflexivity.
      2:{ unfold bind, invoke, ret.
          cbn beta iota zeta delta [fst snd live world calls console].
          rewrite Hcall. reflexivity. }
      2: reflexivity.
      2:{ unfold bind, update, ret. rewrite Hst.
          cbn beta iota zeta delta [fst snd live world calls console].
          reflexivity. }
      unfold run, onMount, checkAuth, loadGameProfiles, bind, invoke, update,
        when, console_error, ret.
      cbn beta iota zeta delta [fst snd live world calls console].
      rewrite Hcall.
      cbn beta iota zeta delta [fst snd live world calls console].
      rewrite Hst. reflexivity.
  - exists [LServe 0; LDeliver 0]. split; [|repeat constructor].
    erewrite (exec_answer_first []).
    2: reflexivity.
    2:{ unfold bind, invoke, ret.
        cbn beta iota zeta delta [fst snd live world calls console].
        rewrite Hcall. reflexivity. }
    2: reflexivity.
    2:{ unfold bind, update, ret.
        cbn beta iota zeta delta [fst snd live world calls console].
        reflexivity. }
    unfold run, onMount, checkAuth, loadGameProfiles, bind, invoke, update,
      when, console_error, ret.
    cbn beta iota zeta delta [fst snd live world calls console].
    now rewrite Hcall.
Qed.
End Schedules.

(** ** The aggregation invariant of the scanner *)

Lemma sumZ_app (l1 l2 : list Z) : sumZ (l1 ++ l2) = sumZ l1 + sumZ l2.
Proof.
  unfold sumZ. induction l1 as [|x l1 IH]; simpl; [reflexivity|].
  rewrite IH. lia.
Qed.

Section ScanInvariant.
Variable resolve : string -> option (list Scanner.ResolvedPath).
Variable files_under : string -> option (list Scanner.FileStat).
Variable show_time : Z -> string.

Lemma add_path_tallied acc r :
  tallied acc -> tallied (Scanner.add_path files_under acc r).
Proof.
  destruct acc as [[ps bytes] latest]. unfold tallied, Scanner.add_path.
  simpl. intros ->.
  destruct (Scanner.scan_path files_under r) as [p t]. simpl.
  rewrite map_app, sumZ_app.
  change (sumZ (map DetectedSavePath.total_size_bytes [p]))
    with (DetectedSavePath.total_size_bytes p + 0).
  lia.
Qed.

Lemma fold_add_path_tallied rs acc :
  tallied acc -> tallied (fold_left (Scanner.add_path files_under) rs acc).
Proof.
  revert acc. induction rs as [|r rs IH]; intros acc Hacc; [exact Hacc|].
  simpl. apply IH. now apply add_path_tallied.
Qed.

Lemma scan_entry_aggregated e g :
  Scanner.scan_entry resolve files_under show_time e = Some g ->
  aggregated g.
Proof.
  unfold Scanner.scan_entry.
  destruct (Scanner.resolve_all resolve (Scanner.path_patterns e)) as [rs|];
    [|discriminate].
  pose proof (fold_add_path_tallied (Scanner.dedup [] rs) ([], 0, None)
                eq_refl) as Hinv.
  destruct (fold_left (Scanner.add_path files_under) (Scanner.dedup [] rs)
              ([], 0, None)) as [[ps bytes] latest].
  destruct (existsb DetectedSavePath.exists_ ps); [|discriminate].
  intros [= <-]. exact Hinv.
Qed.

(** C6.  Every game that a scan of the manifest returns has as its
    [total_size_bytes] the sum of the [total_size_bytes] of its paths. *)
Theorem scan_aggregates (entries : list Scanner.ManifestEntry) :
  Forall aggregated (Scanner.scan resolve files_under show_time entries).
Proof.
  apply Forall_forall. intros g Hin. unfold Scanner.scan in Hin.
  apply list_elem_of_omap in Hin as (e & _ & He).
  exact (scan_entry_aggregated e g He).
Qed.
End ScanInvariant.

Section ScanStored.
Context {W : Type} `{B : Backend W}.

(** [handleScan] stores the games as the backend returned them, so the
    invariant of the scanner carries over to [detectedGames]. *)
Lemma detectedGames_aggregated (σ : Sys W) :
  (forall w gs w', scan_games w = (Ok gs, w') -> Forall aggregated gs) ->
  Forall aggregated (detectedGames (live σ)) ->
  Forall aggregated (detectedGames (live (run handleScan σ))).
Proof.
  intros Hscan Hold. unfold run.
  destruct (handleScan_spec σ) as (_ & _ & _ & _ & ->).
  destruct (scan_games (world σ)) as [[gs|e] w'] eqn:Hcall; simpl.
  - exact (Hscan _ _ _ Hcall).
  - exact Hold.
Qed.
End ScanStored.

(** ** Case folding on ASCII text *)

Lemma all_ascii_complete (a : ascii) : In a all_ascii.
Proof.
  unfold all_ascii. apply in_map_iff. exists (nat_of_ascii a).
  split; [apply ascii_nat_embedding|].
  apply in_seq. pose proof (nat_ascii_bounded a). lia.
Qed.

Lemma case_variants_table :
  forallb (fun a =>
    forallb (fun b =>
      Bool.eqb (case_variants a b)
               (Ascii.eqb (lower_ascii a) (lower_ascii b)))
      all_ascii) all_ascii = true.
Proof. vm_compute. reflexivity. Qed.

Lemma case_variants_spec (a b : ascii) :
  case_variants a b = Ascii.eqb (lower_ascii a) (lower_ascii b).
Proof.
  pose proof case_variants_table as Ht.
  rewrite forallb_forall in Ht. specialize (Ht a (all_ascii_complete a)).
  rewrite forallb_forall in Ht. specialize (Ht b (all_ascii_complete b)).
  now apply Bool.eqb_prop in Ht.
Qed.

(** Folding the letters A to Z identifies exactly the names that differ
    only in the case of these letters. *)
Lemma differ_only_in_case_spec (s t : string) :
  differ_only_in_case s t = true
  <-> ascii_toLowerCase s = ascii_toLowerCase t.
Proof.
  revert t. induction s as [|a s IH]; intros [|b t]; simpl; try easy.
  rewrite andb_true_iff, IH, case_variants_spec, Ascii.eqb_eq.
  split; [intros [-> ->]; reflexivity|intros [= -> ->]; easy].
Qed.

(** * Further properties of the component *)

(** ** [formatBytes]: the number shown *)

Lemma log_index_unique (bytes i : Z) :
  0 <= i -> k ^ i <= bytes < k ^ (i + 1) -> log_index bytes = i.
Proof.
  intros Hi [Hlo Hhi].
  assert (0 < bytes) as Hpos.
  { eapply Z.lt_le_trans; [|exact Hlo]. apply Z.pow_pos_nonneg; [reflexivity|lia]. }
  destruct (log_index_spec bytes Hpos) as (Hj & Hjlo & Hjhi).
  set (j := log_index bytes) in *.
  destruct (Z.lt_trichotomy j i) as [Hlt|[Heq|Hgt]]; [|exact Heq|]; exfalso.
  - assert (k ^ (j + 1) <= k ^ i) by (apply Z.pow_le_mono_r; [reflexivity|lia]).
    lia.
  - assert (k ^ (i + 1) <= k ^ j) by (apply Z.pow_le_mono_r; [reflexivity|lia]).
    lia.
Qed.

(** X1.  For a positive byte count below [1024^4] the number that
    [formatBytes] prints is the count divided by the chosen power of
    1024, rounded to the nearest hundredth, and it lies between 1 and
    1024. *)
Theorem formatBytes_number (bytes : Z) :
  0 < bytes < 1024 ^ 4 ->
  let d := k ^ log_index bytes in
  let n := hundredths bytes d in
  formatBytes bytes
  = show_hundredths n +:+ " " +:+ show_unit (unit_at (log_index bytes))
  /\ 100 <= n <= 102400
  /\ 2 * Z.abs (d * n - 100 * bytes) <= d.
Proof.
  intros [Hpos _]. cbv zeta.
  split; [now apply formatBytes_positive|].
  destruct (log_index_spec bytes Hpos) as (Hi & Hlo & Hhi).
  set (d := k ^ log_index bytes) in *.
  assert (0 < d) as Hd by (apply Z.pow_pos_nonneg; [reflexivity|exact Hi]).
  assert (k ^ (log_index bytes + 1) = 1024 * d) as Hk.
  { unfold d. rewrite Z.pow_add_r, Z.pow_1_r by lia. unfold k at 2. lia. }
  assert (bytes < 1024 * d) as Hup by lia.
  unfold hundredths.
  pose proof (Z.mul_div_le (200 * bytes + d) (2 * d) ltac:(lia)) as Hq1.
  pose proof (Z.mul_succ_div_gt (200 * bytes + d) (2 * d) ltac:(lia)) as Hq2.
  set (q := (200 * bytes + d) / (2 * d)) in *.
  clearbody q d.
  split; [split; nia|].
  assert (- d <= 2 * (d * q - 100 * bytes) <= d) by nia. lia.
Qed.

(** X2.  A whole number of units, from 1 to 1023, is printed as that
    number without decimals, followed by the unit of that power. *)
Theorem formatBytes_whole_units (n i : Z) :
  1 <= n < 1024 -> 0 <= i ->
  formatBytes (n * k ^ i) = pretty n +:+ " " +:+ show_unit (unit_at i).
Proof.
  intros Hn Hi.
  assert (0 < k ^ i) as Hd by (apply Z.pow_pos_nonneg; [reflexivity|exact Hi]).
  assert (log_index (n * k ^ i) = i) as Hlog.
  { apply log_index_unique; [exact Hi|].
    assert (k ^ (i + 1) = 1024 * k ^ i) as ->.
    { rewrite Z.pow_add_r, Z.pow_1_r by lia. unfold k at 2. lia. }
    nia. }
  rewrite formatBytes_positive by nia. rewrite Hlog.
  assert (hundredths (n * k ^ i) (k ^ i) = 100 * n) as ->.
  { unfold hundredths.
    replace (200 * (n * k ^ i) + k ^ i) with ((200 * n + 1) * k ^ i) by lia.
    rewrite Z.div_mul_cancel_r by lia. dlia. }
  unfold show_hundredths.
  replace (100 * n mod 100) with 0 by dlia.
  replace (100 * n / 100) with n by dlia. reflexivity.
Qed.

(** ** The selection *)

(** X3.  A toggle changes the number of selected names by exactly one:
    one less when the name was selected, one more when it was not. *)
Theorem toggled_size (g : string) (s : gset string) :
  size (toggled g s)
  = if bool_decide (g ∈ s) then Nat.pred (size s) else S (size s).
Proof.
  unfold toggled. destruct (decide (g ∈ s)) as [Hin|Hout].
  - rewrite (bool_decide_eq_true_2 _ Hin).
    rewrite size_difference by set_solver. now rewrite size_singleton, Nat.sub_1_r.
  - rewrite (bool_decide_eq_false_2 _ Hout).
    rewrite size_union by set_solver. rewrite size_singleton. lia.
Qed.

Lemma filter_all_selected (l : list DetectedGame.t) (sel : gset string) :
  (forall g, g ∈ l -> DetectedGame.name g ∈ sel) ->
  List.filter (fun g => bool_decide (DetectedGame.name g ∈ sel)) l = l.
Proof.
  induction l as [|g l IH]; intros Hall; [reflexivity|]. simpl.
  rewrite bool_decide_eq_true_2 by (apply Hall, list_elem_of_here).
  rewrite IH; [reflexivity|].
  intros g' Hg'. apply Hall. now apply list_elem_of_further.
Qed.

Lemma size_names_le (l : list string) :
  (size (list_to_set l : gset string) <= length l)%nat.
Proof.
  induction l as [|x l IH].
  { change (size (∅ : gset string) <= 0)%nat. now rewrite size_empty. }
  cbn [list_to_set foldr length]. rewrite size_union_alt, size_singleton.
  pose proof (subseteq_size (list_to_set l ∖ {[x]}) (list_to_set l : gset string)
                ltac:(set_solver)).
  lia.
Qed.

Section SelectAll.
Context {W : Type} `{B : Backend W}.

(** X4.  After "Select All" the selection is the set of the names of
    the detected games, it has at most as many names as there are
    games, and the batch of a backup is the whole list of detected
    games, in order. *)
Theorem selectAll_selects_every_game (σ : Sys W) :
  let s' := live (dispatch ASelectAll σ) in
  (forall x, x ∈ selectedGames s'
             <-> x ∈ DetectedGame.name <$> detectedGames (live σ))
  /\ (size (selectedGames s') <= length (detectedGames (live σ)))%nat
  /\ gamesToUpload s' = detectedGames (live σ).
Proof.
  cbv zeta. unfold dispatch, gamesToUpload. simpl.
  set (l := detectedGames (live σ)).
  assert (forall x, x ∈ (list_to_set (map DetectedGame.name l) : gset string)
                    <-> x ∈ DetectedGame.name <$> l) as Hmem.
  { intros x. rewrite elem_of_list_to_set. reflexivity. }
  split; [exact Hmem|]. split.
  - etrans; [apply size_names_le|]. now rewrite length_map.
  - apply filter_all_selected. intros g Hg. apply Hmem.
    now apply (list_elem_of_fmap_2 DetectedGame.name).
Qed.
End SelectAll.

(** ** [trim] on ASCII text *)

Lemma chars_rev_app (s a : string) :
  String.list_ascii_of_string (String.rev_app s a)
  = List.rev (String.list_ascii_of_string s) ++ String.list_ascii_of_string a.
Proof.
  revert a. induction s as [|c s IH]; intros a; simpl; [reflexivity|].
  rewrite IH. simpl. now rewrite <- app_assoc.
Qed.

Lemma chars_rev (s : string) :
  String.list_ascii_of_string (String.rev s) = List.rev (String.list_ascii_of_string s).
Proof. unfold String.rev. rewrite chars_rev_app. simpl. apply app_nil_r. Qed.

Lemma chars_inj (s t : string) :
  String.list_ascii_of_string s = String.list_ascii_of_string t -> s = t.
Proof.
  intros H. rewrite <- (String.string_of_list_ascii_of_string s),
    <- (String.string_of_list_ascii_of_string t). now rewrite H.
Qed.

Lemma rev_rev (s : string) : String.rev (String.rev s) = s.
Proof. apply chars_inj. rewrite !chars_rev. apply List.rev_involutive. Qed.

Lemma trim_start_first (s : string) (c : ascii) :
  first_char (trim_start s) = Some c -> is_space c = false.
Proof.
  induction s as [|a s IH]; simpl; [discriminate|].
  destruct (is_space a) eqn:Ha; [exact IH|]. simpl. now intros [= <-].
Qed.

Lemma trim_start_suffix (s : string) :
  exists pre,
    String.list_ascii_of_string s = pre ++ String.list_ascii_of_string (trim_start s).
Proof.
  induction s as [|a s [pre IH]]; [now exists []|]. simpl.
  destruct (is_space a).
  - exists (a :: pre). simpl. now rewrite IH.
  - now exists [].
Qed.

Lemma trim_start_blank (s : string) :
  trim_start s = EmptyString <-> blank s = true.
Proof.
  induction s as [|a s IH]; simpl; [easy|].
  destruct (is_space a); simpl; [exact IH|easy].
Qed.

Lemma blank_chars (s : string) :
  blank s = forallb is_space (String.list_ascii_of_string s).
Proof. induction s as [|a s IH]; simpl; [reflexivity|]. now rewrite IH. Qed.

Lemma blank_rev (s : string) : blank (String.rev s) = blank s.
Proof.
  rewrite !blank_chars, chars_rev. apply eq_true_iff_eq.
  rewrite !forallb_forall. split; intros H x Hx; apply H;
    [now apply in_rev in Hx|now apply in_rev].
Qed.

(** [ascii_trim] gives the empty string exactly on the strings of white space
    only: the test [!s.trim()] of the login form on ASCII text. *)
Lemma trim_blank (s : string) : ascii_trim s = EmptyString <-> blank s = true.
Proof.
  unfold ascii_trim. split.
  - intros H. apply (f_equal String.rev) in H. rewrite rev_rev in H.
    change (String.rev "") with EmptyString in H.
    apply trim_start_blank in H. rewrite blank_rev in H.
    apply trim_start_blank.
    destruct (trim_start s) as [|c r] eqn:Ht; [reflexivity|].
    assert (is_space c = false) as Hc.
    { apply (trim_start_first s). now rewrite Ht. }
    simpl in H. now rewrite Hc in H.
  - intros H. apply trim_start_blank in H. now rewrite H.
Qed.

(** A trimmed string neither starts nor ends with white space. *)
Lemma trim_ends (s : string) (c : ascii) :
  first_char (ascii_trim s) = Some c \/ last_char (ascii_trim s) = Some c ->
  is_space c = false.
Proof.
  unfold ascii_trim, last_char. intros [H|H].
  - set (t := trim_start s) in *.
    set (u := trim_start (String.rev t)) in *.
    destruct (trim_start_suffix (String.rev t)) as [pre Hpre].
    fold u in Hpre. rewrite chars_rev in Hpre.
    apply (f_equal (@List.rev ascii)) in Hpre.
    rewrite List.rev_involutive, List.rev_app_distr, <- chars_rev in Hpre.
    destruct (String.rev u) as [|c' r]; [discriminate|].
    injection H as ->.
    apply (trim_start_first s). fold t.
    destruct t as [|c'' t']; [discriminate|].
    simpl in Hpre. now injection Hpre as -> _.
  - rewrite rev_rev in H. now apply trim_start_first in H.
Qed.

(** ** Signing in *)

Section Login.
Context {W : Type} `{B : Backend W}.

Lemma eqb_empty (s : string) : String.eqb s "" = true <-> s = EmptyString.
Proof. apply String.eqb_eq. Qed.

Lemma login_blank_cases (snap : AppState) (σ : Sys W) :
  trim (sessionCookie snap) = EmptyString
  \/ trim (deviceName snap) = EmptyString ->
  exists msg,
    snd (handleLogin snap σ)
    = mkSys (with_error (Some msg) (live σ)) (world σ) (calls σ) (console σ).
Proof.
  intros Hblank. unfold handleLogin.
  destruct (String.eqb_spec (trim (sessionCookie snap)) "") as [Hc|Hc];
    [now eexists|].
  destruct Hblank as [?|Hd]; [contradiction|].
  rewrite Hd. now eexists.
Qed.

(** X5.  A login whose session cookie or device name is empty once
    trimmed (empty, or white space only) is turned down on the spot: no
    command is invoked, and nothing but the error message changes. *)
Theorem login_rejects_blank (snap : AppState) (σ : Sys W) :
  trim (sessionCookie snap) = EmptyString
  \/ trim (deviceName snap) = EmptyString ->
  exists msg,
    (msg = "Please enter your session cookie"
     \/ msg = "Please enter a device name")
    /\ snd (handleLogin snap σ)
       = mkSys (with_error (Some msg) (live σ)) (world σ) (calls σ) (console σ).
Proof.
  intros Hblank. unfold handleLogin.
  destruct (String.eqb_spec (trim (sessionCookie snap)) "") as [Hc|Hc].
  - eexists. split; [left; reflexivity|reflexivity].
  - destruct Hblank as [?|Hd]; [contradiction|]. rewrite Hd.
    eexists. split; [right; reflexivity|reflexivity].
Qed.

(** What a login that passes the two tests does, by the answers of the
    backend. *)
Lemma handleLogin_attempt (snap : AppState) (σ : Sys W) :
  trim (sessionCookie snap) <> EmptyString ->
  trim (deviceName snap) <> EmptyString ->
  let cookie := trim (sessionCookie snap) in
  let device := trim (deviceName snap) in
  let busy := with_error None (with_isLoggingIn true (live σ)) in
  match login cookie device (world σ) with
  | (Err e, w1) =>
      snd (handleLogin snap σ)
      = mkSys (with_isLoggingIn false (with_error (Some e) busy)) w1
          (calls σ ++ [CLogin cookie device (Err e)]) (console σ)
  | (Ok status, w1) =>
      let signed :=
        with_showLoginForm false
          (with_sessionCookie "" (with_authStatus (Some status) busy)) in
      if AuthStatus.is_authenticated status then
        match get_game_profiles w1 with
        | (Ok profiles, w2) =>
            snd (handleLogin snap σ)
            = mkSys (with_isLoggingIn false
                       (with_successMessage
                          (Some "Successfully connected to SaveKnight!")
                          (with_gameProfiles profiles signed)))
                w2
                (calls σ ++ [CLogin cookie device (Ok status);
                             CGetGameProfiles (Ok profiles)])
                (console σ)
        | (Err e, w2) =>
            snd (handleLogin snap σ)
            = mkSys (with_isLoggingIn false
                       (with_successMessage
                          (Some "Successfully connected to SaveKnight!")
                          signed))
                w2
                (calls σ ++ [CLogin cookie device (Ok status);
                             CGetGameProfiles (Err e)])
                (console σ ++ ["Failed to load game profiles: " +:+ e])
        end
      else
        snd (handleLogin snap σ)
        = mkSys (with_isLoggingIn false signed) w1
            (calls σ ++ [CLogin cookie device (Ok status)]) (console σ)
  end.
Proof.
  intros Hc Hd. cbv zeta. unfold handleLogin.
  destruct (String.eqb_spec (trim (sessionCookie snap)) ""); [contradiction|].
  destruct (String.eqb_spec (trim (deviceName snap)) ""); [contradiction|].
  unfold loadGameProfiles, bind, invoke, update, when, console_error, ret.
  cbn beta iota zeta delta [fst snd live world calls console].
  destruct (login (trim (sessionCookie snap)) (trim (deviceName snap)) (world σ))
    as [[status|e] w1]; [|reflexivity].
  cbn beta iota zeta delta [fst snd live world calls console].
  destruct (AuthStatus.is_authenticated status); [|reflexivity].
  cbn beta iota zeta delta [fst snd live world calls console].
  destruct (get_game_profiles w1) as [[ps|e] w2];
    cbn beta iota zeta delta [fst snd live world calls console];
    now rewrite <- app_assoc.
Qed.

(** X6.  The credentials of every [login] request are the trimmed
    fields of the form, and neither is empty; a login that reaches the
    backend makes exactly one such request. *)
Theorem login_sends_trimmed (snap : AppState) (σ : Sys W)
    (cookie device : string) (r : Result AuthStatus.t) :
  CLogin cookie device r ∈ issued (handleLogin snap) σ ->
  cookie = trim (sessionCookie snap) /\ device = trim (deviceName snap)
  /\ cookie <> EmptyString /\ device <> EmptyString
  /\ count (fun c => match c with CLogin _ _ _ => true | _ => false end)
       (issued (handleLogin snap) σ) = 1%nat.
Proof.
  intros Hin.
  destruct (decide (trim (sessionCookie snap) = EmptyString)) as [Hc|Hc].
  { destruct (login_blank_cases snap σ (or_introl Hc)) as (msg & Hrun).
    rewrite (issued_spec (handleLogin snap) σ []) in Hin
      by (rewrite Hrun; simpl; now rewrite app_nil_r).
    now apply elem_of_nil in Hin. }
  destruct (decide (trim (deviceName snap) = EmptyString)) as [Hd|Hd].
  { destruct (login_blank_cases snap σ (or_intror Hd)) as (msg & Hrun).
    rewrite (issued_spec (handleLogin snap) σ []) in Hin
      by (rewrite Hrun; simpl; now rewrite app_nil_r).
    now apply elem_of_nil in Hin. }
  pose proof (handleLogin_attempt snap σ Hc Hd) as Hrun. cbv zeta in Hrun.
  assert (exists rest,
            issued (handleLogin snap) σ
            = CLogin (trim (sessionCookie snap)) (trim (deviceName snap))
                (fst (login (trim (sessionCookie snap))
                        (trim (deviceName snap)) (world σ))) :: rest
            /\ (rest = [] \/ exists r', rest = [CGetGameProfiles r']))
    as (rest & Hiss & Hrest).
  { destruct (login (trim (sessionCookie snap)) (trim (deviceName snap)) (world σ))
      as [[status|e] w1].
    - destruct (AuthStatus.is_authenticated status).
      + destruct (get_game_profiles w1) as [[ps|e] w2]; eexists;
          (split; [apply issued_spec; rewrite Hrun; reflexivity|]);
          right; eexists; reflexivity.
      + eexists. split; [apply issued_spec; rewrite Hrun; reflexivity|now left].
    - eexists. split; [apply issued_spec; rewrite Hrun; reflexivity|now left]. }
  rewrite Hiss in Hin |- *.
  assert (cookie = trim (sessionCookie snap) /\ device = trim (deviceName snap))
    as [-> ->].
  { destruct Hrest as [->|[r' ->]]; inv_elem; try discriminate;
      now injection Hin as -> -> _. }
  repeat split; try done.
  destruct Hrest as [->|[r' ->]]; reflexivity.
Qed.

(** X7.  A login that the backend refuses leaves the component as it
    was, signed out, with the cookie still in the form: only the error
    message is set to the reason, and the busy flag is down again. *)
Theorem login_refused (snap : AppState) (σ : Sys W) (e : string) (w1 : W) :
  trim (sessionCookie snap) <> EmptyString ->
  trim (deviceName snap) <> EmptyString ->
  login (trim (sessionCookie snap)) (trim (deviceName snap)) (world σ)
  = (Err e, w1) ->
  let s' := live (snd (handleLogin snap σ)) in
  s' = with_isLoggingIn false (with_error (Some e) (live σ))
  /\ authStatus s' = authStatus (live σ)
  /\ gameProfiles s' = gameProfiles (live σ)
  /\ sessionCookie s' = sessionCookie (live σ)
  /\ issued (handleLogin snap) σ
     = [CLogin (trim (sessionCookie snap)) (trim (deviceName snap)) (Err e)].
Proof.
  intros Hc Hd Hcall. pose proof (handleLogin_attempt snap σ Hc Hd) as Hrun.
  cbv zeta in *. rewrite Hcall in Hrun.
  split; [|split; [|split; [|split]]];
    try (rewrite Hrun; now destruct (live σ)).
  apply issued_spec. now rewrite Hrun.
Qed.

(** X8.  A login that the backend accepts stores the status it
    returned, empties the cookie field and closes the form.  The
    profiles are listed only when that status is an authenticated one,
    and then the cache is the list the backend gave (or is left as it
    was when the listing is refused, which only the console shows). *)
Theorem login_accepted (snap : AppState) (σ : Sys W)
    (status : AuthStatus.t) (w1 : W) :
  trim (sessionCookie snap) <> EmptyString ->
  trim (deviceName snap) <> EmptyString ->
  login (trim (sessionCookie snap)) (trim (deviceName snap)) (world σ)
  = (Ok status, w1) ->
  let σ' := snd (handleLogin snap σ) in
  let request :=
    CLogin (trim (sessionCookie snap)) (trim (deviceName snap)) (Ok status) in
  authStatus (live σ') = Some status
  /\ sessionCookie (live σ') = EmptyString
  /\ showLoginForm (live σ') = false
  /\ isLoggingIn (live σ') = false
  /\ error (live σ') = None
  /\ (if AuthStatus.is_authenticated status then
        issued (handleLogin snap) σ
        = [request; CGetGameProfiles (fst (get_game_profiles w1))]
        /\ gameProfiles (live σ')
           = match fst (get_game_profiles w1) with
             | Ok profiles => profiles
             | Err _ => gameProfiles (live σ)
             end
      else
        issued (handleLogin snap) σ = [request]
        /\ gameProfiles (live σ') = gameProfiles (live σ)
        /\ successMessage (live σ') = successMessage (live σ)).
Proof.
  intros Hc Hd Hcall. pose proof (handleLogin_attempt snap σ Hc Hd) as Hrun.
  cbv zeta in *. rewrite Hcall in Hrun.
  destruct (AuthStatus.is_authenticated status).
  - destruct (get_game_profiles w1) as [[ps|e] w2]; rewrite Hrun;
      repeat split; try reflexivity; apply issued_spec; now rewrite Hrun.
  - rewrite Hrun. repeat split; try reflexivity.
    apply issued_spec. now rewrite Hrun.
Qed.
End Login.

(** ** The two screens *)

Lemma enabled_signed_out (s : AppState) (a : Action) :
  authenticated s = false -> enabled s a = true -> main_screen a = false.
Proof. intros Hs. destruct a; simpl; rewrite ?Hs; simpl; congruence. Qed.

Lemma enabled_signed_in (s : AppState) (a : Action) :
  authenticated s = true -> enabled s a = true ->
  main_screen a = true \/ a = ATriggerScan.
Proof.
  intros Hs. destruct a; simpl; rewrite ?Hs; simpl; try congruence; auto.
Qed.

(** X9.  The render offers the actions of one screen only: signed out,
    none of the main screen (no scan button, selection, backup or
    logout); signed in, none of the login screen.  The [trigger-scan]
    event is taken in both. *)
Theorem screens_exclusive (s : AppState) (a : Action) :
  enabled s a = true ->
  a = ATriggerScan \/ main_screen a = authenticated s.
Proof.
  intros Hen. destruct (authenticated s) eqn:Hs.
  - destruct (enabled_signed_in s a Hs Hen); auto.
  - right. now apply (enabled_signed_out s).
Qed.

Section Logout.
Context {W : Type} `{B : Backend W}.

Lemma logout_cases (σ : Sys W) :
  snd (handleLogout σ)
  = match logout (world σ) with
    | (Ok u, w1) =>
        mkSys (with_gameProfiles []
                 (with_selectedGames ∅
                    (with_detectedGames []
                       (with_authStatus
                          (Some (AuthStatus.Build false None None None))
                          (live σ)))))
          w1 (calls σ ++ [CLogout (Ok u)]) (console σ)
    | (Err e, w1) =>
        mkSys (with_error (Some e) (live σ)) w1
          (calls σ ++ [CLogout (Err e)]) (console σ)
    end.
Proof.
  unfold handleLogout, bind, invoke, update.
  cbn beta iota zeta delta [fst snd live world calls console].
  now destruct (logout (world σ)) as [[u|e] w1].
Qed.

(** X10.  A logout that goes through signs the component out and
    empties the detected games, the selection and the profile cache,
    after which no action of the main screen is offered; a logout that
    the backend refuses changes nothing but the error message. *)
Theorem logout_outcome (σ : Sys W) :
  let σ' := snd (handleLogout σ) in
  match logout (world σ) with
  | (Ok u, w1) =>
      σ' = mkSys (with_gameProfiles []
                    (with_selectedGames ∅
                       (with_detectedGames []
                          (with_authStatus
                             (Some (AuthStatus.Build false None None None))
                             (live σ)))))
             w1 (calls σ ++ [CLogout (Ok u)]) (console σ)
      /\ (forall a, enabled (live σ') a = true -> main_screen a = false)
  | (Err e, w1) =>
      σ' = mkSys (with_error (Some e) (live σ)) w1
             (calls σ ++ [CLogout (Err e)]) (console σ)
  end.
Proof.
  cbv zeta. unfold handleLogout, bind, invoke, update.
  cbn beta iota zeta delta [fst snd live world calls console].
  destruct (logout (world σ)) as [[u|e] w1]; [|reflexivity].
  cbn beta iota zeta delta [fst snd live world calls console].
  split; [reflexivity|].
  intros a. now apply enabled_signed_out.
Qed.
End Logout.

(** ** Scanning and the status check *)

Section ScanAndAuth.
Context {W : Type} `{B : Backend W}.

(** X11.  A scan leaves the selection, the profile cache and the
    sign-in status alone and ends with the busy flag down.  When it
    succeeds the detected games are replaced by the list returned, the
    error is cleared and the success message is set only for a
    non-empty list; when it fails the detected games are kept and the
    error is the reason given. *)
Theorem scan_outcome (σ : Sys W) :
  let s' := live (snd (handleScan σ)) in
  isScanning s' = false
  /\ selectedGames s' = selectedGames (live σ)
  /\ gameProfiles s' = gameProfiles (live σ)
  /\ authStatus s' = authStatus (live σ)
  /\ match fst (scan_games (world σ)) with
     | Ok gs =>
         detectedGames s' = gs /\ error s' = None
         /\ successMessage s'
            = match gs with
              | [] => successMessage (live σ)
              | _ :: _ =>
                  Some ("Found " +:+ pretty (length gs)
                        +:+ " games with save files!")
              end
     | Err e =>
         detectedGames s' = detectedGames (live σ) /\ error s' = Some e
         /\ successMessage s' = successMessage (live σ)
     end.
Proof.
  cbv zeta. unfold handleScan, bind, invoke, update, when, ret.
  cbn beta iota zeta delta [fst snd live world calls console].
  destruct (scan_games (world σ)) as [[gs|e] w']; [|now repeat split].
  cbn beta iota zeta delta [fst snd live world calls console].
  destruct gs as [|g gs]; now repeat split.
Qed.

(** X12.  The status check at mount lists the profiles exactly when the
    backend reports an authenticated status; a status check that fails
    leaves the component signed out as it was and only sets the
    error. *)
Theorem checkAuth_outcome (σ : Sys W) :
  let σ' := snd (checkAuth σ) in
  match get_auth_status (world σ) with
  | (Ok status, w1) =>
      authStatus (live σ') = Some status
      /\ error (live σ') = error (live σ)
      /\ (if AuthStatus.is_authenticated status then
            issued checkAuth σ
            = [CGetAuthStatus (Ok status);
               CGetGameProfiles (fst (get_game_profiles w1))]
            /\ gameProfiles (live σ')
               = match fst (get_game_profiles w1) with
                 | Ok profiles => profiles
                 | Err _ => gameProfiles (live σ)
                 end
          else
            issued checkAuth σ = [CGetAuthStatus (Ok status)]
            /\ gameProfiles (live σ') = gameProfiles (live σ))
  | (Err e, w1) =>
      σ' = mkSys (with_error (Some e) (live σ)) w1
             (calls σ ++ [CGetAuthStatus (Err e)]) (console σ)
  end.
Proof.
  cbv zeta. unfold issued.
  unfold checkAuth, loadGameProfiles, bind, invoke, update, when,
    console_error, ret.
  cbn beta iota zeta delta [fst snd live world calls console].
  destruct (get_auth_status (world σ)) as [[status|e] w1]; [|reflexivity].
  cbn beta iota zeta delta [fst snd live world calls console].
  destruct (AuthStatus.is_authenticated status).
  - cbn beta iota zeta delta [fst snd live world calls console].
    destruct (get_game_profiles w1) as [[ps|e] w2];
      cbn beta iota zeta delta [fst snd live world calls console];
      rewrite <- app_assoc, drop_app_length; now repeat split.
  - cbn beta iota zeta delta [fst snd live world calls console].
    rewrite drop_app_length. now repeat split.
Qed.
End ScanAndAuth.

(** ** More on the backup *)

Lemma settles_nonempty cache g t : settles cache g t -> t <> [].
Proof. intros H. destruct H; discriminate. Qed.

Lemma batch_trace_nil cache gs tr :
  batch_trace cache gs tr -> (tr = [] <-> gs = []).
Proof.
  intros H. destruct H as [|g gs t ts Hs Hb]; [easy|].
  split; [|discriminate]. intros Happ.
  apply app_eq_nil in Happ as [Ht _]. now apply settles_nonempty in Hs.
Qed.

Lemma settles_length cache g t :
  settles cache g t -> length t = S (length (created t)).
Proof. intros H. destruct H; reflexivity. Qed.

Lemma batch_trace_length cache gs tr :
  batch_trace cache gs tr ->
  length tr = (length gs + length (created tr))%nat.
Proof.
  induction 1 as [|g gs t ts Hs _ IH]; [reflexivity|].
  rewrite created_app, !length_app, IH, (settles_length _ _ _ Hs). simpl. lia.
Qed.

Lemma batch_trace_kind cache gs tr c :
  batch_trace cache gs tr -> c ∈ tr ->
  match c with
  | CCreateGameProfile _ _ _ | CUploadSaves _ _ _ => True
  | _ => False
  end.
Proof.
  induction 1 as [|g gs t ts Hs _ IH]; intros Hin; inv_elem.
  - destruct Hs; inv_elem; now subst.
  - now apply IH.
Qed.

Lemma elem_of_gamesToUpload (snap : AppState) (g : DetectedGame.t) :
  g ∈ gamesToUpload snap
  <-> g ∈ detectedGames snap /\ DetectedGame.name g ∈ selectedGames snap.
Proof.
  unfold gamesToUpload. rewrite !list_elem_of_In, List.filter_In.
  now rewrite bool_decide_eq_true.
Qed.

Lemma count_none (f : Call -> bool) (tr : list Call) :
  Forall (fun c => f c = false) tr -> count f tr = 0%nat.
Proof.
  unfold count. induction 1 as [|c tr Hc _ IH]; [reflexivity|].
  simpl. now rewrite Hc.
Qed.

Section BackupMore.
Context {W : Type} `{B : Backend W}.

(** X13.  A backup invokes no command exactly when no detected game is
    selected: with an empty selection, and also with a selection whose
    names are no longer among the detected games. *)
Theorem backup_silent_iff_empty_batch (snap : AppState) (σ : Sys W) :
  issued (handleUpload snap) σ = [] <-> gamesToUpload snap = [].
Proof.
  destruct (handleUpload_trace snap σ) as (tr & Hb & _ & Hc & _).
  rewrite (issued_spec (handleUpload snap) σ tr Hc).
  now apply batch_trace_nil with (cache := gameProfiles snap).
Qed.

(** X14.  A backup in which no request is refused reports no error, and
    reports as backed up every game of a non-empty batch. *)
Theorem backup_without_refusal (snap : AppState) (σ : Sys W) :
  size (selectedGames snap) <> 0%nat ->
  Forall (fun c => failed c = false) (issued (handleUpload snap) σ) ->
  let s' := live (run (handleUpload snap) σ) in
  error s' = None
  /\ (gamesToUpload snap <> [] ->
      successMessage s'
      = Some (backed_up_message (length (gamesToUpload snap)))).
Proof.
  intros Hsel Hall. destruct (handleUpload_spec snap σ Hsel) as (tr & H).
  cbv zeta in *.
  destruct H as (Hb & _ & Hc & _ & _ & _ & _ & _ & Hmsg & Herr).
  rewrite (issued_spec (handleUpload snap) σ tr Hc) in Hall.
  pose proof (count_none failed tr Hall) as Hnone.
  pose proof (batch_trace_counts _ _ _ Hb) as Hsum.
  rewrite Hnone, Nat.add_0_r in Hsum.
  rewrite Herr, Hmsg, Hnone, Hsum. split; [reflexivity|].
  intros Hne. destruct (gamesToUpload snap); [congruence|reflexivity].
Qed.

(** X15.  A backup invokes nothing but profile creations and uploads: a
    creation is for the name of a detected, selected game with platform
    "PC", and an upload carries exactly one detected, selected game. *)
Theorem backup_calls_shape (snap : AppState) (σ : Sys W) (c : Call) :
  c ∈ issued (handleUpload snap) σ ->
  match c with
  | CCreateGameProfile name platform _ =>
      platform = "PC"
      /\ name ∈ selectedGames snap
      /\ exists g, g ∈ detectedGames snap /\ DetectedGame.name g = name
  | CUploadSaves gs _ _ =>
      exists g, gs = [g] /\ g ∈ detectedGames snap
                /\ DetectedGame.name g ∈ selectedGames snap
  | _ => False
  end.
Proof.
  destruct (handleUpload_trace snap σ) as (tr & Hb & _ & Hc & _).
  rewrite (issued_spec (handleUpload snap) σ tr Hc). intros Hin.
  pose proof (batch_trace_kind _ _ _ c Hb Hin) as Hkind.
  destruct c; try contradiction.
  - destruct (batch_trace_create _ _ _ _ _ _ Hb Hin) as (g & Hg & -> & -> & _).
    apply elem_of_gamesToUpload in Hg as [Hdet Hsel].
    split; [reflexivity|]. split; [exact Hsel|]. now exists g.
  - destruct (batch_trace_upload _ _ _ _ _ _ Hb Hin) as (g & Hg & -> & _).
    apply elem_of_gamesToUpload in Hg as [Hdet Hsel]. now exists g.
Qed.


(** X17.  A backup makes one request per game of the batch and one more
    for every profile it adds to the cache: at most two per game. *)
Theorem backup_request_count (snap : AppState) (σ : Sys W) :
  let tr := issued (handleUpload snap) σ in
  let added :=
    (length (gameProfiles (live (run (handleUpload snap) σ)))
     - length (gameProfiles (live σ)))%nat in
  length tr = (length (gamesToUpload snap) + added)%nat
  /\ (length tr <= 2 * length (gamesToUpload snap))%nat.
Proof.
  destruct (handleUpload_trace snap σ) as (tr & Hb & _ & Hc & Hp & _).
  cbv zeta. rewrite (issued_spec (handleUpload snap) σ tr Hc), Hp, length_app.
  pose proof (batch_trace_length _ _ _ Hb) as Hlen.
  pose proof (batch_trace_counts _ _ _ Hb) as Hsum.
  assert (length (created tr) <= length (gamesToUpload snap))%nat as Hle.
  { clear -Hb. induction Hb as [|g gs t ts Hs _ IH]; [simpl; lia|].
    rewrite created_app, length_app. simpl.
    destruct (created_settles _ _ _ Hs) as [->|(p & -> & _)]; simpl; lia. }
  lia.
Qed.

(** X18.  After the backup action the backup button is disabled: the
    selection is empty, so a second backup needs a new selection. *)
Theorem backup_button_disabled_after (σ : Sys W) :
  enabled (live (dispatch AUpload σ)) AUpload = false.
Proof.
  simpl. rewrite (selection_empty_after_upload_action σ).
  rewrite size_empty. simpl. now rewrite orb_true_r, andb_false_r.
Qed.

(** X19.  The backup button is offered only with a non-empty selection,
    so a backup started from it never ends with the request to select a
    game; its error, if any, is the count of failed games. *)
Theorem backup_button_passes_guard (σ : Sys W) :
  enabled (live σ) AUpload = true ->
  size (selectedGames (live σ)) <> 0%nat
  /\ error (live (dispatch AUpload σ))
     <> Some "Please select at least one game to backup".
Proof.
  intros Hen. simpl in Hen.
  assert (size (selectedGames (live σ)) <> 0%nat) as Hsel.
  { intros Hz. rewrite Hz in Hen. simpl in Hen.
    now rewrite orb_true_r, andb_false_r in Hen. }
  split; [exact Hsel|].
  destruct (handleUpload_spec (live σ) σ Hsel) as (tr & H). cbv zeta in H.
  destruct H as (_ & _ & _ & _ & _ & _ & _ & _ & _ & Herr).
  unfold dispatch. simpl. fold (run (handleUpload (live σ)) σ). rewrite Herr.
  destruct (0 <? count failed tr)%nat; [|discriminate].
  unfold failed_message. simpl. discriminate.
Qed.
End BackupMore.

(** ** The lookup and the batch *)

(** X20.  The profile that the lookup returns is the first profile of
    the cache whose name, in lower case, is the name of the game in lower
    case; when the lookup returns nothing, no cached profile has that
    lower-case name. *)
Theorem lookup_by_case_variant (g : DetectedGame.t)
    (cache : list GameProfile.t) :
  match List.find (same_name g) cache with
  | Some p =>
      exists before after,
        cache = before ++ p :: after
        /\ toLowerCase (GameProfile.name p)
           = toLowerCase (DetectedGame.name g)
        /\ forall q, q ∈ before ->
             toLowerCase (GameProfile.name q)
             <> toLowerCase (DetectedGame.name g)
  | None =>
      forall q, q ∈ cache ->
        toLowerCase (GameProfile.name q) <> toLowerCase (DetectedGame.name g)
  end.
Proof.
  assert (forall a, same_name g a = false ->
            toLowerCase (GameProfile.name a)
            <> toLowerCase (DetectedGame.name g)) as Hne.
  { intros a Ha He. apply same_name_true in He. congruence. }
  induction cache as [|a cache IH]; simpl.
  - intros q Hq. now apply elem_of_nil in Hq.
  - destruct (same_name g a) eqn:Ha.
    + exists [], cache. split; [reflexivity|].
      split; [now apply same_name_true in Ha|].
      intros q Hq. now apply elem_of_nil in Hq.
    + destruct (List.find (same_name g) cache) as [p|].
      * destruct IH as (before & after & -> & Hp & Hbefore).
        exists (a :: before), after. split; [reflexivity|]. split; [exact Hp|].
        intros q Hq. apply elem_of_cons in Hq as [->|Hq]; [now apply Hne|].
        now apply Hbefore.
      * intros q Hq. apply elem_of_cons in Hq as [->|Hq]; [now apply Hne|].
        now apply IH.
Qed.

(** X21.  The batch of a backup is made of the detected games whose
    name is selected, in the order of detection; it is never longer
    than the list of detected games, and it has as many games as the
    selection has names when the detected games are named apart and
    every selected name is among them. *)
Theorem batch_of_selection (snap : AppState) :
  (forall g, g ∈ gamesToUpload snap
             <-> g ∈ detectedGames snap
                 /\ DetectedGame.name g ∈ selectedGames snap)
  /\ gamesToUpload snap `sublist_of` detectedGames snap
  /\ (NoDup (DetectedGame.name <$> detectedGames snap) ->
      (forall x, x ∈ selectedGames snap ->
                 x ∈ DetectedGame.name <$> detectedGames snap) ->
      length (gamesToUpload snap) = size (selectedGames snap)).
Proof.
  split; [apply elem_of_gamesToUpload|]. split; [|apply gamesToUpload_length].
  unfold gamesToUpload.
  induction (detectedGames snap) as [|g l IH]; simpl; [constructor|].
  destruct (bool_decide (DetectedGame.name g ∈ selectedGames snap));
    now constructor.
Qed.

(** ** The selection between scans *)

Section SelectionDetected.
Context {W : Type} `{B : Backend W}.

(** X23.  Apart from scans, no action that the render offers selects a
    name outside the detected games: when every selected name is the
    name of a detected game before the action, it is so after it.  (A
    scan replaces the detected games and keeps the selection.) *)
Theorem selection_stays_detected (σ : Sys W) (a : Action) :
  selection_detected (live σ) ->
  enabled (live σ) a = true ->
  a <> AScan -> a <> ATriggerScan ->
  selection_detected (live (dispatch a σ)).
Proof.
  intros Hinv Hen Hscan Htrig. unfold selection_detected in *.
  destruct a; try congruence; unfold dispatch; simpl; try exact Hinv.
  - (* ALogin *)
    destruct (decide (trim (sessionCookie (live σ)) = EmptyString)) as [Hc|Hc].
    { destruct (login_blank_cases (live σ) σ (or_introl Hc)) as (msg & ->).
      exact Hinv. }
    destruct (decide (trim (deviceName (live σ)) = EmptyString)) as [Hd|Hd].
    { destruct (login_blank_cases (live σ) σ (or_intror Hd)) as (msg & ->).
      exact Hinv. }
    pose proof (handleLogin_attempt (live σ) σ Hc Hd) as Hrun.
    cbv zeta in Hrun.
    destruct (login _ _ (world σ)) as [[status|e] w1].
    + destruct (AuthStatus.is_authenticated status).
      * destruct (get_game_profiles w1) as [[ps|e] w2]; rewrite Hrun;
          exact Hinv.
      * rewrite Hrun. exact Hinv.
    + rewrite Hrun. exact Hinv.
  - (* AUpload *)
    intros x Hx. pose proof (selection_empty_after_upload_action σ) as He.
    unfold dispatch in He. simpl in He. rewrite He in Hx. set_solver.
  - (* ASelectAll *)
    intros x Hx. apply elem_of_list_to_set in Hx. exact Hx.
  - (* ADeselectAll *)
    intros x Hx. set_solver.
  - (* AToggle *)
    simpl in Hen. intros x Hx. unfold toggled in Hx.
    destruct (bool_decide (gameName ∈ selectedGames (live σ))).
    + apply Hinv. set_solver.
    + apply elem_of_union in Hx as [Hx|Hx]; [now apply Hinv|].
      apply elem_of_singleton in Hx as ->.
      apply andb_true_iff in Hen as [_ Hin].
      now apply bool_decide_eq_true in Hin.
  - (* ALogout *)
    rewrite logout_cases.
    destruct (logout (world σ)) as [[u|e] w1]; simpl; [|exact Hinv].
    intros x Hx. set_solver.
Qed.
End SelectionDetected.

End WithStrings.

(** ** The lookup on ASCII names *)

(** On ASCII text the predicate of the lookup accepts a profile exactly
    when its name and the name of the game differ only in letter
    case. *)
Lemma same_name_ignores_case (g : DetectedGame.t) (p : GameProfile.t) :
  same_name (JS := ascii_strings) g p
  = differ_only_in_case (GameProfile.name p) (DetectedGame.name g).
Proof.
  apply eq_true_iff_eq. rewrite differ_only_in_case_spec.
  unfold same_name. apply String.eqb_eq.
Qed.

(** The lookup in the captured cache: the first profile whose name is
    the name of the game up to letter case; games whose names differ
    only in letter case get the same answer. *)
Lemma lookup_ignores_case (g g' : DetectedGame.t) (cache : list GameProfile.t) :
  differ_only_in_case (DetectedGame.name g) (DetectedGame.name g') = true ->
  List.find (same_name (JS := ascii_strings) g) cache
  = List.find (same_name (JS := ascii_strings) g') cache.
Proof.
  intros Hd. apply (find_same_name_folded (JS := ascii_strings)).
  unfold folded. now apply differ_only_in_case_spec.
Qed.

(** * The properties on the scripted backend *)

Import Scripted.
#[local] Existing Instance ascii_strings.

Lemma scripted_keeps_names : keeps_names (B := backend).
Proof.
  intros name platform w p w' Hcall. simpl in Hcall. unfold create in Hcall.
  destruct (bool_decide (name ∈ refuse_create w)); [discriminate|].
  now injection Hcall as <- _.
Qed.

(** The scenario of the specification: of three selected games the
    upload of the second is refused; the first and the third are still
    uploaded and the backup reports two successes and one failure. *)
Example partial_failure_isolation :
  let σ := run (handleUpload three) (start (refusing_upload ["Beta"]) three) in
  calls σ
  = [CCreateGameProfile "Alpha" "PC" (Ok (profile 1 "Alpha"));
     CUploadSaves [alpha] "profile-1" (Ok tt);
     CCreateGameProfile "Beta" "PC" (Ok (profile 2 "Beta"));
     CUploadSaves [beta] "profile-2" (Err "network error");
     CCreateGameProfile "Gamma" "PC" (Ok (profile 3 "Gamma"));
     CUploadSaves [gamma] "profile-3" (Ok tt)]
  /\ successMessage (live σ) = Some "Successfully backed up 2 game(s)!"
  /\ error (live σ)
     = Some "Failed to backup 1 game(s). Check logs for details."
  /\ console σ = ["Failed to upload Beta: network error"].
Proof. vm_compute. repeat split; reflexivity. Qed.

(** A refused profile creation fails its game only. *)
Example creation_failure_isolation :
  let σ := run (handleUpload three) (start (refusing_create ["Alpha"]) three) in
  calls σ
  = [CCreateGameProfile "Alpha" "PC" (Err "network error");
     CCreateGameProfile "Beta" "PC" (Ok (profile 1 "Beta"));
     CUploadSaves [beta] "profile-1" (Ok tt);
     CCreateGameProfile "Gamma" "PC" (Ok (profile 2 "Gamma"));
     CUploadSaves [gamma] "profile-2" (Ok tt)]
  /\ gameProfiles (live σ) = [profile 1 "Beta"; profile 2 "Gamma"]
  /\ successMessage (live σ) = Some "Successfully backed up 2 game(s)!"
  /\ error (live σ)
     = Some "Failed to backup 1 game(s). Check logs for details.".
Proof. vm_compute. repeat split; reflexivity. Qed.

(** The example of the specification for the scanner. *)
Example scan_example :
  detectedGames (live (run handleScan (start example_disk initial)))
  = [DetectedGame.Build "Example Game"
       [DetectedSavePath.Build "<appdata>/ExampleGame/saves"
          "<appdata>/ExampleGame/saves" true 2 4096]
       4096 (Some "20")].
Proof. vm_compute. reflexivity. Qed.

Lemma backup_outcomes_independent_witness :
  let σ := start (refusing_upload ["Beta"]) three in
  let tr := issued (handleUpload three) σ in
  gamesToUpload three = [alpha; beta; gamma]
  /\ size (selectedGames three) <> 0%nat
  /\ count uploaded tr = 2%nat
  /\ count failed tr = 1%nat
  /\ attempted gamma tr
  /\ fst (uploadLoop three (gamesToUpload three) (0, 0)%nat
            (mkSys (with_error None (with_isUploading true (live σ)))
               (world σ) (calls σ) (console σ)))
     = (count uploaded tr, count failed tr).
Proof.
  pose proof (backup_outcomes_independent three
                (start (refusing_upload ["Beta"]) three)) as H.
  cbv zeta in *. destruct H as (_ & _ & Hall & _ & Hcnt).
  assert (size (selectedGames three) <> 0%nat) as Hsel
    by (vm_compute; discriminate).
  split; [vm_compute; reflexivity|]. split; [exact Hsel|].
  split; [vm_compute; reflexivity|]. split; [vm_compute; reflexivity|].
  split; [|exact (proj1 (Hcnt Hsel))].
  apply Hall. vm_compute.
  do 2 apply list_elem_of_further. apply list_elem_of_here.
Defined.

(** C3, on the code.  With "Doom" and "DOOM" both selected and no
    profile cached, the cache holds a profile for "Doom" once the first
    game is settled, and the lookup for "DOOM" accepts that profile; but
    the loop looks "DOOM" up in the array captured at the start, finds
    nothing, and has a second profile created. *)
Theorem stale_lookup_creates_duplicate :
  let σ0 := start quiet twins in
  let σ1 := snd (processGame twins doom (0, 0)%nat σ0) in
  let σ2 := run (handleUpload twins) σ0 in
  differ_only_in_case "Doom" "DOOM" = true
  /\ List.find (same_name DOOM) (gameProfiles (live σ1))
     = Some (profile 1 "Doom")
  /\ List.find (same_name DOOM) (gameProfiles twins) = None
  /\ calls σ2
     = [CCreateGameProfile "Doom" "PC" (Ok (profile 1 "Doom"));
        CUploadSaves [doom] "profile-1" (Ok tt);
        CCreateGameProfile "DOOM" "PC" (Ok (profile 2 "DOOM"));
        CUploadSaves [DOOM] "profile-2" (Ok tt)]
  /\ gameProfiles (live σ2) = [profile 1 "Doom"; profile 2 "DOOM"].
Proof. vm_compute. repeat split; reflexivity. Qed.

(** In a later backup both names go to the first of the two profiles. *)
Example twins_share_afterwards :
  let cache := [profile 1 "Doom"; profile 2 "DOOM"] in
  let again := showing [doom; DOOM] {["Doom"; "DOOM"]} cache in
  calls (run (handleUpload again) (start quiet again))
  = [CUploadSaves [doom] "profile-1" (Ok tt);
     CUploadSaves [DOOM] "profile-1" (Ok tt)].
Proof. vm_compute. reflexivity. Qed.

(** C2, on the code.  With "Doom" and "DOOM" both selected and no
    profile cached, the first backup has a profile created for each and
    uploads "DOOM" under the second one, its own.  The backup run again
    with the same selection, on the cache the first one left, creates
    nothing, but uploads "DOOM" under the first profile, the one of
    "Doom": the id used for "DOOM" in the second run is not the id used
    in the first, and two profiles were created for one name up to
    letter case. *)
Theorem second_backup_switches_profile :
  let σ0 := start quiet twins in
  let σ1 := dispatch AUpload σ0 in
  let σ2 := dispatch ASelectAll σ1 in
  let tr1 := issued (handleUpload (live σ0)) σ0 in
  let tr2 := issued (handleUpload (live σ2)) σ2 in
  enabled (live σ0) AUpload = true
  /\ enabled (live σ1) ASelectAll = true
  /\ enabled (live σ2) AUpload = true
  /\ gamesToUpload (live σ2) = gamesToUpload (live σ0)
  /\ tr1 = [CCreateGameProfile "Doom" "PC" (Ok (profile 1 "Doom"));
            CUploadSaves [doom] "profile-1" (Ok tt);
            CCreateGameProfile "DOOM" "PC" (Ok (profile 2 "DOOM"));
            CUploadSaves [DOOM] "profile-2" (Ok tt)]
  /\ gameProfiles (live σ2) = [profile 1 "Doom"; profile 2 "DOOM"]
  /\ tr2 = [CUploadSaves [doom] "profile-1" (Ok tt);
            CUploadSaves [DOOM] "profile-1" (Ok tt)]
  /\ count (creates "doom") (tr1 ++ tr2) = 2%nat.
Proof. vm_compute. repeat split; reflexivity. Qed.

Lemma second_backup_reuses_profile_witness :
  let σ1 := start quiet first in
  let σ2 := start quiet second in
  gameProfiles (live σ2) = gameProfiles (live (dispatch AUpload σ1))
  /\ (count (creates "Alpha")
        (issued (handleUpload first) σ1 ++ issued (handleUpload second) σ2)
      <= 1)%nat
  /\ (forall platform r',
        CCreateGameProfile "Alpha" platform r'
        ∉ issued (handleUpload second) σ2)
  /\ exists r', CUploadSaves [alpha] "profile-1" r'
                ∈ issued (handleUpload second) σ2.
Proof.
  assert (gameProfiles (live (start quiet second))
          = gameProfiles (live (dispatch AUpload (start quiet first)))) as Hc.
  { vm_compute. reflexivity. }
  assert (NoDup (folded <$> gamesToUpload (live (start quiet first)))) as Hn1.
  { vm_compute. repeat constructor. intros H. inversion H. }
  assert (NoDup (folded <$> gamesToUpload (live (start quiet second)))) as Hn2.
  { vm_compute. repeat constructor. intros H. inversion H. }
  destruct (second_backup_reuses_profile (start quiet first)
              (start quiet second) scripted_keeps_names Hc Hn1 Hn2)
    as [Hone Hreuse].
  cbv zeta. split; [exact Hc|]. split; [apply Hone|].
  assert (CUploadSaves [alpha] "profile-1" (Ok tt)
          ∈ issued (handleUpload (live (start quiet first))) (start quiet first))
    as Hup.
  { vm_compute. apply list_elem_of_further, list_elem_of_here. }
  destruct (Hreuse alpha "profile-1" (Ok tt) Hup) as [Hno Hsame].
  split; [exact Hno|].
  apply (Hsame alpha eq_refl).
  vm_compute. apply list_elem_of_here.
Defined.


Lemma selection_cleared_after_backup_witness :
  let σ := start (refusing_upload ["Alpha"; "Beta"; "Gamma"]) three in
  size (selectedGames three) <> 0%nat
  /\ selectedGames (live (run (handleUpload three) σ)) = ∅.
Proof.
  cbv zeta.
  assert (size (selectedGames three) <> 0%nat) as Hsel.
  { vm_compute. discriminate. }
  split; [exact Hsel|].
  exact (selection_cleared_after_backup three _ Hsel).
Defined.

(** C7, the claim as it stands.  The listing requested at mount is
    answered before the backup and arrives after it: through the whole
    schedule the user is signed in, the backup has appended the profile
    it created, and the arrival of the listing replaces the cache by
    the empty list, so the cache afterwards is not the cache before
    with something appended. *)
Lemma listing_replaces_cache :
  let signed_in := after status_check in
  let c := after (status_check ++ backup_before_listing) in
  let c' := after (status_check ++ backup_before_listing ++ [LDeliver 0]) in
  exec status_check mounted = Some signed_in
  /\ session backup_before_listing signed_in = Some c
  /\ session [LDeliver 0] c = Some c'
  /\ tasks c !! 0%nat = Some (TGameProfiles (Some (Ok [])))
  /\ gameProfiles (live (sys c)) = [profile 1 "Example Game"]
  /\ gameProfiles (live (sys c')) = []
  /\ ~ (exists added,
          gameProfiles (live (sys c')) = gameProfiles (live (sys c)) ++ added).
Proof.
  cbv zeta. repeat (split; [vm_compute; reflexivity|]).
  intros [added H]. vm_compute in H. discriminate.
Qed.

Lemma cache_appended_or_reloaded_witness :
  let c := after (status_check ++ backup_before_listing) in
  let c' := after (status_check ++ backup_before_listing ++ [LDeliver 0]) in
  step (LDeliver 0) c = Some c'
  /\ authenticated (live (sys c')) = true
  /\ gameProfiles (live (sys c)) = [profile 1 "Example Game"]
  /\ gameProfiles (live (sys c')) = [].
Proof.
  cbv zeta.
  assert (step (LDeliver 0) (after (status_check ++ backup_before_listing))
          = Some (after (status_check ++ backup_before_listing
                         ++ [LDeliver 0]))) as Hstep
    by (vm_compute; reflexivity).
  assert (authenticated
            (live (sys (after (status_check ++ backup_before_listing
                               ++ [LDeliver 0])))) = true) as Hauth
    by (vm_compute; reflexivity).
  split; [exact Hstep|]. split; [exact Hauth|].
  split; [vm_compute; reflexivity|].
  rewrite (cache_appended_or_reloaded _ _ _ Hstep Hauth).
  vm_compute. reflexivity.
Defined.

Lemma toggleGameSelection_involution_witness :
  "Beta" <> "Alpha"
  /\ ("Beta" ∈ toggled "Alpha" {["Beta"]} <-> "Beta" ∈ ({["Beta"]} : gset string))
  /\ toggled "Alpha" (toggled "Alpha" {["Beta"]}) = {["Beta"]}.
Proof.
  destruct (toggleGameSelection_involution "Alpha" {["Beta"]}
              (start quiet initial)) as (Htwice & _ & _ & _ & _ & Hother).
  assert ("Beta" <> "Alpha") as Hne by discriminate.
  split; [exact Hne|]. split; [exact (Hother "Beta" Hne)|exact Htwice].
Defined.

(** A whole session on the example disk: mount (already signed in),
    scan, select all, back up, sign out. *)
Example whole_session :
  let σ0 := run (onMount "Mozilla/5.0 (Windows NT 10.0)") (start example_disk initial) in
  let σ1 := dispatch AUpload (dispatch ASelectAll (dispatch AScan σ0)) in
  let σ2 := dispatch ALogout (dispatch (ASetTab tab_settings) σ1) in
  deviceName (live σ0) = "Windows PC"
  /\ authenticated (live σ0) = true
  /\ enabled (live (dispatch ASelectAll (dispatch AScan σ0))) AUpload = true
  /\ gameProfiles (live σ1) = [profile 1 "Example Game"]
  /\ successMessage (live σ1) = Some "Successfully backed up 1 game(s)!"
  /\ error (live σ1) = None
  /\ enabled (live σ1) AUpload = false
  /\ gameProfiles (live σ2) = []
  /\ authenticated (live σ2) = false
  /\ enabled (live σ2) AUpload = false.
Proof. vm_compute. repeat split; reflexivity. Qed.

(** ** The further properties on the scripted backend *)

Lemma formatBytes_number_witness :
  0 < 1536 < 1024 ^ 4
  /\ 100 <= hundredths 1536 (k ^ log_index 1536) <= 102400.
Proof.
  assert (0 < 1536 < 1024 ^ 4) as Hpos by lia. split; [exact Hpos|].
  exact (proj1 (proj2 (formatBytes_number 1536 Hpos))).
Defined.

Lemma formatBytes_whole_units_witness :
  1 <= 5 < 1024 /\ 0 <= 2 /\ formatBytes (5 * k ^ 2) = "5 MB".
Proof.
  assert (1 <= 5 < 1024) as Hn by lia. assert (0 <= 2) as Hi by lia.
  split; [exact Hn|]. split; [exact Hi|].
  rewrite (formatBytes_whole_units 5 2 Hn Hi). reflexivity.
Defined.

Lemma login_rejects_blank_witness :
  let snap := form "   " "Desk" in
  (trim (sessionCookie snap) = EmptyString
   \/ trim (deviceName snap) = EmptyString)
  /\ exists msg,
       calls (snd (handleLogin snap (start signed_out snap))) = []
       /\ error (live (snd (handleLogin snap (start signed_out snap))))
          = Some msg.
Proof.
  cbv zeta.
  assert (trim (sessionCookie (form "   " "Desk")) = EmptyString
          \/ trim (deviceName (form "   " "Desk")) = EmptyString) as Hb
    by (left; reflexivity).
  split; [exact Hb|].
  destruct (login_rejects_blank (form "   " "Desk")
              (start signed_out (form "   " "Desk")) Hb) as (msg & _ & ->).
  exists msg. split; reflexivity.
Defined.

Lemma login_sends_trimmed_witness :
  let snap := form " valid " "  Desk " in
  let σ := start signed_out snap in
  let request :=
    CLogin "valid" "Desk"
      (Ok (AuthStatus.Build true (Some "device-1")
             (Some "player@example.com") (Some "Free"))) in
  request ∈ issued (handleLogin snap) σ
  /\ "valid" = trim (sessionCookie snap)
  /\ "Desk" = trim (deviceName snap).
Proof.
  cbv zeta.
  assert (CLogin "valid" "Desk"
            (Ok (AuthStatus.Build true (Some "device-1")
                   (Some "player@example.com") (Some "Free")))
          ∈ issued (handleLogin (form " valid " "  Desk "))
              (start signed_out (form " valid " "  Desk "))) as Hin.
  { vm_compute. apply list_elem_of_here. }
  split; [exact Hin|].
  destruct (login_sends_trimmed _ _ _ _ _ Hin) as (Hc & Hd & _).
  split; [exact Hc|exact Hd].
Defined.

Lemma login_refused_witness :
  let snap := form "wrong" "Desk" in
  let σ := start signed_out snap in
  trim (sessionCookie snap) <> EmptyString
  /\ trim (deviceName snap) <> EmptyString
  /\ login (trim (sessionCookie snap)) (trim (deviceName snap)) (world σ)
     = (Err "invalid session cookie", signed_out)
  /\ authStatus (live (snd (handleLogin snap σ))) = authStatus (live σ)
  /\ sessionCookie (live (snd (handleLogin snap σ))) = "wrong".
Proof.
  cbv zeta.
  assert (trim (sessionCookie (form "wrong" "Desk")) <> EmptyString) as Hc
    by (vm_compute; discriminate).
  assert (trim (deviceName (form "wrong" "Desk")) <> EmptyString) as Hd
    by (vm_compute; discriminate).
  assert (login (trim (sessionCookie (form "wrong" "Desk")))
            (trim (deviceName (form "wrong" "Desk")))
            (world (start signed_out (form "wrong" "Desk")))
          = (Err "invalid session cookie", signed_out)) as Hcall
    by (vm_compute; reflexivity).
  destruct (login_refused (form "wrong" "Desk")
              (start signed_out (form "wrong" "Desk"))
              "invalid session cookie" signed_out Hc Hd Hcall)
    as (_ & Hst & _ & Hck & _).
  split; [exact Hc|]. split; [exact Hd|]. split; [exact Hcall|].
  split; [exact Hst|exact Hck].
Defined.

Lemma login_accepted_witness :
  let snap := form " valid " "Desk" in
  let σ := start signed_out snap in
  trim (sessionCookie snap) <> EmptyString
  /\ trim (deviceName snap) <> EmptyString
  /\ fst (login (trim (sessionCookie snap)) (trim (deviceName snap)) (world σ))
     = Ok (Scripted.status quiet)
  /\ authStatus (live (snd (handleLogin snap σ))) = Some (Scripted.status quiet)
  /\ sessionCookie (live (snd (handleLogin snap σ))) = EmptyString.
Proof.
  cbv zeta.
  assert (trim (sessionCookie (form " valid " "Desk")) <> EmptyString) as Hc
    by (vm_compute; discriminate).
  assert (trim (deviceName (form " valid " "Desk")) <> EmptyString) as Hd
    by (vm_compute; discriminate).
  assert (login (trim (sessionCookie (form " valid " "Desk")))
            (trim (deviceName (form " valid " "Desk")))
            (world (start signed_out (form " valid " "Desk")))
          = (Ok (Scripted.status quiet), with_signed_in true signed_out))
    as Hcall by (vm_compute; reflexivity).
  destruct (login_accepted (form " valid " "Desk")
              (start signed_out (form " valid " "Desk"))
              (Scripted.status quiet) (with_signed_in true signed_out)
              Hc Hd Hcall)
    as (Hst & Hck & _).
  split; [exact Hc|]. split; [exact Hd|].
  split; [now rewrite Hcall|]. split; [exact Hst|exact Hck].
Defined.

Lemma screens_exclusive_witness :
  enabled three AUpload = true
  /\ (AUpload = ATriggerScan \/ main_screen AUpload = authenticated three).
Proof.
  assert (enabled three AUpload = true) as Hen by (vm_compute; reflexivity).
  split; [exact Hen|]. exact (screens_exclusive three AUpload Hen).
Defined.

Lemma backup_without_refusal_witness :
  let σ := start quiet three in
  size (selectedGames three) <> 0%nat
  /\ Forall (fun c => failed c = false) (issued (handleUpload three) σ)
  /\ error (live (run (handleUpload three) σ)) = None.
Proof.
  cbv zeta.
  assert (size (selectedGames three) <> 0%nat) as Hsel
    by (vm_compute; discriminate).
  assert (Forall (fun c => failed c = false)
            (issued (handleUpload three) (start quiet three))) as Hall.
  { vm_compute. repeat constructor. }
  split; [exact Hsel|]. split; [exact Hall|].
  exact (proj1 (backup_without_refusal three _ Hsel Hall)).
Defined.

Lemma backup_calls_shape_witness :
  let σ := start quiet first in
  CCreateGameProfile "Alpha" "PC" (Ok (profile 1 "Alpha"))
  ∈ issued (handleUpload first) σ
  /\ "Alpha" ∈ selectedGames first.
Proof.
  cbv zeta.
  assert (CCreateGameProfile "Alpha" "PC" (Ok (profile 1 "Alpha"))
          ∈ issued (handleUpload first) (start quiet first)) as Hin.
  { vm_compute. apply list_elem_of_here. }
  split; [exact Hin|].
  exact (proj1 (proj2 (backup_calls_shape first _ _ Hin))).
Defined.


Lemma backup_button_passes_guard_witness :
  let σ := start quiet three in
  enabled (live σ) AUpload = true
  /\ size (selectedGames (live σ)) <> 0%nat.
Proof.
  cbv zeta.
  assert (enabled (live (start quiet three)) AUpload = true) as Hen
    by (vm_compute; reflexivity).
  split; [exact Hen|].
  exact (proj1 (backup_button_passes_guard _ Hen)).
Defined.

Lemma batch_of_selection_witness :
  NoDup (DetectedGame.name <$> detectedGames three)
  /\ (forall x, x ∈ selectedGames three ->
                x ∈ DetectedGame.name <$> detectedGames three)
  /\ length (gamesToUpload three) = size (selectedGames three).
Proof.
  assert (NoDup (DetectedGame.name <$> detectedGames three)) as Hnd.
  { vm_compute. repeat constructor; intros H; inv_elem; discriminate. }
  assert (forall x, x ∈ selectedGames three ->
                    x ∈ DetectedGame.name <$> detectedGames three) as Hsub.
  { intros x Hx. unfold three, showing in Hx. simpl in Hx.
    apply elem_of_union in Hx as [Hx|Hx];
      [apply elem_of_union in Hx as [Hx|Hx]|];
      apply elem_of_singleton in Hx as ->; simpl;
      repeat (first [apply list_elem_of_here | apply list_elem_of_further]). }
  split; [exact Hnd|]. split; [exact Hsub|].
  exact (proj2 (proj2 (batch_of_selection three)) Hnd Hsub).
Defined.

Lemma selection_stays_detected_witness :
  let σ := start quiet first in
  selection_detected (live σ)
  /\ enabled (live σ) (AToggle "Alpha") = true
  /\ selection_detected (live (dispatch (AToggle "Alpha") σ)).
Proof.
  cbv zeta.
  assert (selection_detected (live (start quiet first))) as Hinv.
  { intros x Hx. unfold first, showing in Hx. simpl in Hx.
    apply elem_of_singleton in Hx as ->. simpl. apply list_elem_of_here. }
  assert (enabled (live (start quiet first)) (AToggle "Alpha") = true) as Hen
    by (vm_compute; reflexivity).
  split; [exact Hinv|]. split; [exact Hen|].
  apply (selection_stays_detected _ _ Hinv Hen); discriminate.
Defined.

Lemma dispatch_schedule_witness :
  let c := mkConfig (start quiet three) [] in
  enabled (live (sys c)) AUpload = true
  /\ exists ls timers,
       exec (LAct AUpload :: ls) c
       = Some (mkConfig (dispatch AUpload (sys c)) (tasks c ++ timers))
       /\ Forall follow_up ls.
Proof.
  cbv zeta.
  assert (enabled (live (sys (mkConfig (start quiet three) []))) AUpload = true)
    as Hen by (vm_compute; reflexivity).
  split; [exact Hen|].
  destruct (dispatch_schedule AUpload (mkConfig (start quiet three) []) Hen)
    as (ls & timers & Hex & Hsil & _).
  exists ls, timers. split; [exact Hex|exact Hsil].
Defined.

(** The backup of three games with every answer arriving at once, step
    by step. *)
Example backup_step_by_step :
  exec [LAct AUpload;
        LServe 0; LDeliver 0; LServe 0; LDeliver 0;
        LServe 0; LDeliver 0; LServe 0; LDeliver 0;
        LServe 0; LDeliver 0; LServe 0; LDeliver 0]
    (mkConfig (start (refusing_upload ["Beta"]) three) [])
  = Some (mkConfig (dispatch AUpload (start (refusing_upload ["Beta"]) three))
            [TClearMessage]).
Proof. vm_compute. reflexivity. Qed.
